(** * Verification of the line-by-line time-complexity analyzer (time.cpp)

  The development embeds [class ComplexityAnalyzer] of [src/time/time.cpp]:
  the ECMAScript regular expressions it builds, the per-line classifier
  [analyze_line], the two passes of [analyze] and the overall estimator.

  Modelling conventions.
  - A [std::string] is a [list ascii]; the characters are bytes.
  - [\s] and [\w] are read in the classic locale: [\s] is space and the
    control characters 9..13, [\w] is [A-Za-z0-9_].
  - [std::regex] is the backtracking ECMAScript matcher: the leftmost start
    position wins and, at one position, alternatives are tried in the order
    of the pattern, quantifiers being greedy.  [matcher] lists the
    successful continuations in exactly that priority order.
  - The two [int] counters are modelled in [Z].  They only grow by one per
    input line, so they stay inside the [int] range for every input of
    fewer than 2^31 lines ([nesting_bounded_by_lines]).  The conversion of
    the loop index to [int] is written out ([static_cast_int]).
  - The members of the analyzer object are a record that each method takes
    and returns; [analyze] returns its records together with the analyzer it
    leaves behind, which [estimate_overall_complexity] then reads. *)

From Stdlib Require Import List Ascii String ZArith Lia Bool Sorted.
From stdpp Require Import gmap strings.
Import ListNotations.

Local Open Scope Z_scope.

(** ** Characters and strings *)

Abbreviation str := (list ascii).

Definition lit (s : string) : str := list_ascii_of_string s.

Definition code_of (a : ascii) : N := N_of_ascii a.

Definition in_range (lo hi : N) (a : ascii) : bool :=
  ((lo <=? code_of a) && (code_of a <=? hi))%N.

(** [\s]: <space>, \t, \n, \v, \f, \r. *)
Definition is_space (a : ascii) : bool :=
  in_range 9 13 a || (code_of a =? 32)%N.

Definition is_upper (a : ascii) : bool := in_range 65 90 a.
Definition is_lower (a : ascii) : bool := in_range 97 122 a.
Definition is_digit (a : ascii) : bool := in_range 48 57 a.
Definition is_underscore (a : ascii) : bool := (code_of a =? 95)%N.

(** [\w], also used by [\b]. *)
Definition is_word (a : ascii) : bool :=
  is_upper a || is_lower a || is_digit a || is_underscore a.

(** The class "[a-zA-Z_]" *)
Definition ident_start (a : ascii) : bool :=
  is_lower a || is_upper a || is_underscore a.

(** The class "[a-zA-Z0-9_]" *)
Definition ident_char (a : ascii) : bool :=
  is_lower a || is_upper a || is_digit a || is_underscore a.

Definition is_char (c : ascii) (a : ascii) : bool := Ascii.eqb c a.

Definition not_char (c : ascii) (a : ascii) : bool := negb (Ascii.eqb c a).

Definition one_of (cs : str) (a : ascii) : bool := existsb (Ascii.eqb a) cs.

(** ** Regular expressions *)

Inductive regex : Type :=
| Eps
| Chr (p : ascii -> bool)
| Seq (r1 r2 : regex)
| Alt (r1 r2 : regex)
| Star (r : regex)
| Group (n : nat) (r : regex)
| WordB
| Bol
| Eol.

Definition Plus (r : regex) : regex := Seq r (Star r).
Definition Opt (r : regex) : regex := Alt r Eps.

Fixpoint Lit (s : str) : regex :=
  match s with
  | [] => Eps
  | a :: s' => Seq (Chr (is_char a)) (Lit s')
  end.

(** The position of the matcher: the character before it (none at the start
    of the subject), the unread text, and the sub-matches recorded so far
    (newest first). *)
Record mstate : Type := MState {
  prev : option ascii;
  rest : str;
  caps : list (nat * str)
}.

Definition consumed (st st' : mstate) : str :=
  firstn (length (rest st) - length (rest st')) (rest st).

Definition set_cap (n : nat) (w : str) (st : mstate) : mstate :=
  {| prev := prev st; rest := rest st; caps := (n, w) :: caps st |}.

Definition word_before (st : mstate) : bool :=
  match prev st with Some a => is_word a | None => false end.

Definition word_after (st : mstate) : bool :=
  match rest st with a :: _ => is_word a | [] => false end.

Definition word_boundary (st : mstate) : bool :=
  xorb (word_before st) (word_after st).

Definition at_bol (st : mstate) : bool :=
  match prev st with None => true | Some _ => false end.

Definition at_eol (st : mstate) : bool :=
  match rest st with [] => true | _ :: _ => false end.

(** Greedy iteration: one more round of [step] first (an empty round is
    refused), leaving the loop last. *)
Fixpoint star_run (step : mstate -> list mstate) (fuel : nat) (st : mstate)
  : list mstate :=
  match fuel with
  | O => [st]
  | S n =>
      flat_map (fun st1 =>
                  if (length (rest st1) <? length (rest st))%nat
                  then star_run step n st1 else [])
               (step st) ++ [st]
  end.

(** All the ways [r] matches at [st], best first. *)
Fixpoint matcher (r : regex) (st : mstate) : list mstate :=
  match r with
  | Eps => [st]
  | Chr p =>
      match rest st with
      | a :: s => if p a then [ {| prev := Some a; rest := s; caps := caps st |} ] else []
      | [] => []
      end
  | Seq r1 r2 => flat_map (matcher r2) (matcher r1 st)
  | Alt r1 r2 => matcher r1 st ++ matcher r2 st
  | Star r1 => star_run (matcher r1) (length (rest st)) st
  | Group n r1 => map (fun st' => set_cap n (consumed st st') st') (matcher r1 st)
  | WordB => if word_boundary st then [st] else []
  | Bol => if at_bol st then [st] else []
  | Eol => if at_eol st then [st] else []
  end.

(** What [std::match_results] exposes. *)
Record match_results : Type := MatchResults {
  m_prefix : str;
  m_start : mstate;
  m_end : mstate
}.

Definition m_str (m : match_results) : str := consumed (m_start m) (m_end m).

Fixpoint sub_match (n : nat) (cs : list (nat * str)) : str :=
  match cs with
  | [] => []
  | (k, w) :: cs' => if Nat.eqb k n then w else sub_match n cs'
  end.

(** [match[n].str()] for [n >= 1]. *)
Definition m_sub (n : nat) (m : match_results) : str := sub_match n (caps (m_end m)).

(** Leftmost match at or after the position ([p], [s]); [skipped] is the text
    passed over so far, reversed. *)
Fixpoint search_from (r : regex) (p : option ascii) (s : str) (skipped : str)
  : option match_results :=
  let st := {| prev := p; rest := s; caps := [] |} in
  match matcher r st with
  | st' :: _ => Some {| m_prefix := rev skipped; m_start := st; m_end := st' |}
  | [] =>
      match s with
      | [] => None
      | a :: s' => search_from r (Some a) s' (a :: skipped)
      end
  end.

(** [regex_search(s, match, r)] *)
Definition regex_search_m (r : regex) (s : str) : option match_results :=
  search_from r None s [].

(** [regex_search(s, r)] *)
Definition regex_search (r : regex) (s : str) : bool :=
  match regex_search_m r s with Some _ => true | None => false end.

(** [regex_replace] of [s] by [r] with the empty format: the text between
    the matches is copied and every match is dropped.  The matches are those
    of [std::regex_iterator]: after a match the scan resumes behind it with
    the previous character known ([match_prev_avail]), so [^] no longer holds
    there.  After an empty match the iterator first asks for a non-empty match
    at the same place ([match_not_null | match_continuous]) and otherwise
    moves one character on. *)
Fixpoint replace_run (fuel : nat) (r : regex) (p : option ascii) (s : str) : str :=
  match fuel with
  | O => s
  | S n =>
      match search_from r p s [] with
      | None => s
      | Some m =>
          m_prefix m ++
          match m_str m, rest (m_end m) with
          | _ :: _, s' => replace_run n r (prev (m_end m)) s'
          | [], [] => []
          | [], a :: s' =>
              match filter (fun st' => (length (rest st') <? S (length s'))%nat)
                           (matcher r (MState (prev (m_end m)) (a :: s') [])) with
              | st' :: _ => replace_run n r (prev st') (rest st')
              | [] => a :: replace_run n r (Some a) s'
              end
          end
      end
  end.

Definition regex_replace_empty (r : regex) (s : str) : str :=
  replace_run (S (length s)) r None s.

(** ** The patterns of time.cpp *)

Definition ws : regex := Chr is_space.

(** The pattern of [trim]: "^\s+|\s+$" *)
Definition trim_re : regex := Alt (Seq Bol (Plus ws)) (Seq (Plus ws) Eol).

(** Lines 100, 124 and 158: "\b(for|while)\s*\(" *)
Definition loop_re : regex :=
  Seq WordB (Seq (Group 1 (Alt (Lit (lit "for")) (Lit (lit "while"))))
            (Seq (Star ws) (Chr (is_char "(")))).

(** An identifier: "[a-zA-Z_]" and then "[a-zA-Z0-9_]" any number of times. *)
Definition ident_re : regex := Seq (Chr ident_start) (Star (Chr ident_char)).

(** "\([^)]*\)\s*" *)
Definition params_re : regex :=
  Seq (Chr (is_char "(")) (Seq (Star (Chr (not_char ")")))
      (Seq (Chr (is_char ")")) (Star ws))).

(** Lines 72 and 153: "\b(", [ident_re], ")\s*", [params_re], "(?:const)?\s*"
    and one character of the bracket class [closers]. *)
Definition signature_re (closers : str) : regex :=
  Seq WordB (Seq (Group 1 ident_re) (Seq (Star ws) (Seq params_re
      (Seq (Opt (Lit (lit "const"))) (Seq (Star ws) (Chr (one_of closers))))))).

(** Line 72: a body opener or a statement terminator. *)
Definition definition_re : regex := signature_re (lit "{;").

(** Line 153: a body opener only. *)
Definition declaration_re : regex := signature_re (lit "{").

(** Line 136: "\b", [ident_re], "\s*", [params_re], ";" *)
Definition call_re : regex :=
  Seq WordB (Seq ident_re (Seq (Star ws) (Seq params_re (Chr (is_char ";"))))).

(** Line 65: "\b", then [func_name], then "\s*\(": the name is spliced into
    the pattern text.  Every name the analyzer stores is an identifier
    ([current_function_identifier]), so each of its characters stands for
    itself. *)
Definition recursive_re (func_name : str) : regex :=
  Seq WordB (Seq (Lit func_name) (Seq (Star ws) (Chr (is_char "(")))).

(** ** The analyzer *)

Inductive Complexity : Type :=
| CONSTANT | LINEAR | QUADRATIC | CUBIC | LINEARITHMIC | UNKNOWN.

Record CodeAnalysis : Type := MkCodeAnalysis {
  line_number : Z;
  code : str;
  complexity : Complexity;
  reason : str
}.

Record ComplexityAnalyzer : Type := MkAnalyzer {
  code_lines : list str;
  function_calls : gmap str Z;
  block_stack : list string;
  current_function : str;
  nesting_level : Z;
  max_nesting : Z
}.

(** The constructor, with the default member initializers. *)
Definition new_analyzer (code : list str) : ComplexityAnalyzer :=
  {| code_lines := code; function_calls := ∅; block_stack := [];
     current_function := []; nesting_level := 0; max_nesting := 0 |}.

Definition set_function_calls (fc : gmap str Z) (a : ComplexityAnalyzer) :=
  {| code_lines := code_lines a; function_calls := fc;
     block_stack := block_stack a; current_function := current_function a;
     nesting_level := nesting_level a; max_nesting := max_nesting a |}.

Definition set_current_function (f : str) (a : ComplexityAnalyzer) :=
  {| code_lines := code_lines a; function_calls := function_calls a;
     block_stack := block_stack a; current_function := f;
     nesting_level := nesting_level a; max_nesting := max_nesting a |}.

Definition set_blocks (bs : list string) (lvl mx : Z) (a : ComplexityAnalyzer) :=
  {| code_lines := code_lines a; function_calls := function_calls a;
     block_stack := bs; current_function := current_function a;
     nesting_level := lvl; max_nesting := mx |}.

Definition trim (s : str) : str := regex_replace_empty trim_re s.

Definition is_comment (line : str) : bool :=
  match line with
  | [] => true
  | _ :: _ => bool_decide (firstn 2 line = lit "//")
  end.

Definition is_recursive (line func_name : str) : bool :=
  match func_name with
  | [] => false
  | _ :: _ => regex_search (recursive_re func_name) line
  end.

(** [function_calls[name]++]: a missing key starts from 0. *)
Definition count_call (name : str) (fc : gmap str Z) : gmap str Z :=
  <[name := default 0 (fc !! name) + 1]> fc.

Definition track_function_definitions (a : ComplexityAnalyzer) : ComplexityAnalyzer :=
  set_function_calls
    (fold_left (fun fc line =>
                  match regex_search_m definition_re line with
                  | Some m => count_call (m_sub 1 m) fc
                  | None => fc
                  end)
               (code_lines a) (function_calls a))
    a.

Definition ESC : str := [ascii_of_nat 27].
Definition RESET : str := ESC ++ lit "[0m".
Definition RED : str := ESC ++ lit "[31m".
Definition GREEN : str := ESC ++ lit "[32m".
Definition YELLOW : str := ESC ++ lit "[33m".
Definition MAGENTA : str := ESC ++ lit "[35m".
Definition CYAN : str := ESC ++ lit "[36m".
Definition WHITE : str := ESC ++ lit "[37m".

Definition get_complexity_reason (line : str) (c : Complexity) : str :=
  match c with
  | CONSTANT => GREEN ++ lit "Constant time operation (no loops)" ++ RESET
  | LINEAR =>
      if regex_search loop_re line
      then YELLOW ++ lit "Single loop running n times" ++ RESET
      else YELLOW ++ lit "Linear time operation" ++ RESET
  | QUADRATIC => RED ++ lit "Nested loops (n × n iterations)" ++ RESET
  | CUBIC => MAGENTA ++ lit "Triple nested loops (n × n × n iterations)" ++ RESET
  | LINEARITHMIC => CYAN ++ lit "Divide-and-conquer or recursive algorithm" ++ RESET
  | UNKNOWN => WHITE ++ lit "Unable to determine complexity" ++ RESET
  end.

Definition analyze_line (a : ComplexityAnalyzer) (line : str) : Complexity :=
  if is_comment line then CONSTANT
  else if regex_search loop_re line then
    if nesting_level a =? 0 then LINEAR
    else if nesting_level a =? 1 then QUADRATIC
    else CUBIC
  else if negb (bool_decide (current_function a = []))
          && is_recursive line (current_function a) then LINEARITHMIC
  else if regex_search call_re line then UNKNOWN
  else CONSTANT.

(** [line.find(c) != string::npos] *)
Definition contains (c : ascii) (line : str) : bool := existsb (Ascii.eqb c) line.

(** Lines 151-155. *)
Definition track_declaration (line : str) (a : ComplexityAnalyzer) : ComplexityAnalyzer :=
  match regex_search_m declaration_re line with
  | Some m => set_current_function (m_sub 1 m) a
  | None => a
  end.

(** Lines 157-165. *)
Definition track_opening (line : str) (a : ComplexityAnalyzer) : ComplexityAnalyzer :=
  if regex_search loop_re line then
    set_blocks ("loop"%string :: block_stack a) (nesting_level a + 1)
               (Z.max (max_nesting a) (nesting_level a + 1)) a
  else if contains "{" line then
    set_blocks ("block"%string :: block_stack a) (nesting_level a) (max_nesting a) a
  else a.

(** Lines 176-180. *)
Definition track_closing (line : str) (a : ComplexityAnalyzer) : ComplexityAnalyzer :=
  if contains "}" line then
    match block_stack a with
    | [] => a
    | top :: below =>
        set_blocks below
          (if String.eqb top "loop" then nesting_level a - 1 else nesting_level a)
          (max_nesting a) a
    end
  else a.

(** [static_cast<int>] of a [size_t]: reduction modulo 2^32 into the signed range. *)
Definition static_cast_int (n : Z) : Z :=
  let m := n mod 2 ^ 32 in if m <? 2 ^ 31 then m else m - 2 ^ 32.

(** The state in which line [raw] is classified. *)
Definition before_classify (raw : str) (a : ComplexityAnalyzer) : ComplexityAnalyzer :=
  track_opening (trim raw) (track_declaration (trim raw) a).

(** One round of the loop of [analyze], for index [i]. *)
Definition analyze_step (i : nat) (raw : str) (a : ComplexityAnalyzer)
  : CodeAnalysis * ComplexityAnalyzer :=
  let line := trim raw in
  let a2 := before_classify raw a in
  let comp := analyze_line a2 line in
  ({| line_number := static_cast_int (Z.of_nat i + 1); code := line;
      complexity := comp; reason := get_complexity_reason line comp |},
   track_closing line a2).

Fixpoint analyze_loop (i : nat) (lines : list str) (a : ComplexityAnalyzer)
  (results : list CodeAnalysis) : list CodeAnalysis * ComplexityAnalyzer :=
  match lines with
  | [] => (results, a)
  | raw :: lines' =>
      let '(r, a') := analyze_step i raw a in
      analyze_loop (S i) lines' a' (results ++ [r])
  end.

(** [analyze()]: the records it returns and the analyzer it leaves behind. *)
Definition analyze (a : ComplexityAnalyzer) : list CodeAnalysis * ComplexityAnalyzer :=
  let a0 := track_function_definitions a in
  analyze_loop 0 (code_lines a0) a0 [].

Definition estimate_overall_complexity (a : ComplexityAnalyzer) : Complexity :=
  match max_nesting a with
  | 0 => CONSTANT
  | 1 => LINEAR
  | 2 => QUADRATIC
  | 3 => CUBIC
  | _ => LINEARITHMIC
  end.

(** [main], without the console: the records and the final verdict. *)
Definition run (code : list str) : list CodeAnalysis * Complexity :=
  let '(results, a) := analyze (new_analyzer code) in
  (results, estimate_overall_complexity a).

(** ** What a match is

  [matches r st st']: reading [r] from position [st] can end at [st'].
  [matcher] enumerates exactly these end positions ([matcher_spec]). *)

Inductive matches : regex -> mstate -> mstate -> Prop :=
| M_Eps st : matches Eps st st
| M_Chr p o a s k :
    p a = true ->
    matches (Chr p) (MState o (a :: s) k) (MState (Some a) s k)
| M_Seq r1 r2 st st1 st2 :
    matches r1 st st1 -> matches r2 st1 st2 -> matches (Seq r1 r2) st st2
| M_AltL r1 r2 st st' : matches r1 st st' -> matches (Alt r1 r2) st st'
| M_AltR r1 r2 st st' : matches r2 st st' -> matches (Alt r1 r2) st st'
| M_StarStop r st : matches (Star r) st st
| M_StarStep r st st1 st2 :
    matches r st st1 ->
    (length (rest st1) < length (rest st))%nat ->
    matches (Star r) st1 st2 ->
    matches (Star r) st st2
| M_Group n r st st' :
    matches r st st' ->
    matches (Group n r) st (set_cap n (consumed st st') st')
| M_WordB st : word_boundary st = true -> matches WordB st st
| M_Bol st : at_bol st = true -> matches Bol st st
| M_Eol st : at_eol st = true -> matches Eol st st.

Create HintDb regex.
#[local] Hint Constructors matches : regex.

(** The character before the position once [w] has been read. *)
Definition prev_after (p : option ascii) (w : str) : option ascii :=
  fold_left (fun _ a => Some a) w p.

Definition with_caps (k : list (nat * str)) (st : mstate) : mstate :=
  {| prev := prev st; rest := rest st; caps := k |}.

Fixpoint no_groups (r : regex) : bool :=
  match r with
  | Seq r1 r2 | Alt r1 r2 => no_groups r1 && no_groups r2
  | Star r1 => no_groups r1
  | Group _ _ => false
  | _ => true
  end.

(** ** What the statements below talk about *)

(** The text without its leading white space. *)
Fixpoint drop_space (s : str) : str :=
  match s with
  | [] => []
  | a :: s' => if is_space a then drop_space s' else s
  end.

(** The text without its trailing white space. *)
Fixpoint drop_trailing (s : str) : str :=
  match s with
  | [] => []
  | a :: s' => if forallb is_space s then [] else a :: drop_trailing s'
  end.

(** The text without leading and trailing white space. *)
Definition strip (s : str) : str := drop_trailing (drop_space s).

(** ** The loop of [analyze], unfolded *)

(** The analyzer after one line. *)
Definition after_line (raw : str) (a : ComplexityAnalyzer) : ComplexityAnalyzer :=
  track_closing (trim raw) (before_classify raw a).

(** The analyzer after a block of lines. *)
Definition after_lines (lines : list str) (a : ComplexityAnalyzer) : ComplexityAnalyzer :=
  fold_left (fun a raw => after_line raw a) lines a.

(** The records of a block of lines whose first index is [i]. *)
Fixpoint records_from (i : nat) (lines : list str) (a : ComplexityAnalyzer)
  : list CodeAnalysis :=
  match lines with
  | [] => []
  | raw :: lines' =>
      fst (analyze_step i raw a) :: records_from (S i) lines' (after_line raw a)
  end.

(** Every state the analyzer goes through: before the run, after the
    pre-pass, and for each line after lines 151-155, after lines 157-165 (the
    state in which the line is classified) and after lines 176-180. *)
Fixpoint trace_loop (lines : list str) (a : ComplexityAnalyzer)
  : list ComplexityAnalyzer :=
  match lines with
  | [] => []
  | raw :: lines' =>
      track_declaration (trim raw) a
        :: before_classify raw a
        :: after_line raw a
        :: trace_loop lines' (after_line raw a)
  end.

Definition analyze_trace (a : ComplexityAnalyzer) : list ComplexityAnalyzer :=
  a :: track_function_definitions a
    :: trace_loop (code_lines a) (track_function_definitions a).

(** The number of "loop" frames on the block stack. *)
Fixpoint loop_frames (bs : list string) : Z :=
  match bs with
  | [] => 0
  | top :: below => (if String.eqb top "loop" then 1 else 0) + loop_frames below
  end.

(** The part of one round that tracks blocks, without the function tracking
    and without the classifier. *)
Definition track_blocks (raw : str) (a : ComplexityAnalyzer) : ComplexityAnalyzer :=
  track_closing (trim raw) (track_opening (trim raw) a).

(** ** Invariants of the block tracking *)

Definition depth_ok (a : ComplexityAnalyzer) : Prop :=
  nesting_level a = loop_frames (block_stack a).

Definition max_le (a b : ComplexityAnalyzer) : Prop :=
  max_nesting a <= max_nesting b.

(** The members that the block tracking reads and writes. *)
Definition blocks (a : ComplexityAnalyzer) : list string * Z * Z :=
  (block_stack a, nesting_level a, max_nesting a).

(** An identifier, as the signature pattern captures it. *)
Definition identifier (f : str) : Prop :=
  match f with
  | [] => False
  | a :: f' => ident_start a = true /\ Forall (fun c => ident_char c = true) f'
  end.

(** The active function name is unset or an identifier. *)
Definition name_ok (a : ComplexityAnalyzer) : Prop :=
  current_function a = [] \/ identifier (current_function a).

(** The text before a position ends in a word character. *)
Definition ends_in_word (pre : str) : bool :=
  match prev_after None pre with Some a => is_word a | None => false end.

(** Sample lines. *)

Definition for_line : str := lit "for (int i = 0; i < n; i++) {".
Definition fib_line : str := lit "int fib(int n) {".
Definition fib_call : str := lit "  return fib(n-1) + fib(n-2);".

(** ** The rest of the program *)

(** [complexity_to_string], lines 82-91. *)
Definition complexity_to_string (c : Complexity) : str :=
  match c with
  | CONSTANT => GREEN ++ lit "O(1)" ++ RESET
  | LINEAR => YELLOW ++ lit "O(n)" ++ RESET
  | QUADRATIC => RED ++ lit "O(n²)" ++ RESET
  | CUBIC => MAGENTA ++ lit "O(n³)" ++ RESET
  | LINEARITHMIC => CYAN ++ lit "O(n log n)" ++ RESET
  | UNKNOWN => WHITE ++ lit "Unknown" ++ RESET
  end.

Definition newline : ascii := ascii_of_nat 10.

(** The characters up to the next newline, and what follows that newline. *)
Fixpoint read_line (input : str) : str * str :=
  match input with
  | [] => ([], [])
  | c :: input' =>
      if Ascii.eqb c newline then ([], input')
      else let '(line, after) := read_line input' in (c :: line, after)
  end.

(** [getline(cin, line)] on the unread input: the next line without its
    newline, and the input left; it fails when the input is at its end. *)
Definition getline (input : str) : option (str * str) :=
  match input with
  | [] => None
  | _ :: _ => Some (read_line input)
  end.

(** The loop of lines 233-235: lines are appended to [code] until [getline]
    fails or returns the line END. *)
Fixpoint read_loop (fuel : nat) (input : str) (code : list str) : list str :=
  match fuel with
  | O => code
  | S n =>
      match getline input with
      | None => code
      | Some (line, after) =>
          if bool_decide (line = lit "END") then code
          else read_loop n after (code ++ [line])
      end
  end.

(** Every round reads at least one character, so the length of the input
    bounds the number of rounds. *)
Definition read_code (input : str) : list str :=
  read_loop (length input) input [].

(** [main] from the standard input to the records and the verdict that it
    prints. *)
Definition main (input : str) : list CodeAnalysis * Complexity :=
  run (read_code input).

(** ** Further notions for the statements *)

(** Lines written one after the other, each closed by a newline. *)
Definition unlines (ls : list str) : str :=
  flat_map (fun l => l ++ [newline]) ls.

(** The lines in front of the first line END. *)
Fixpoint before_END (ls : list str) : list str :=
  match ls with
  | [] => []
  | l :: ls' => if bool_decide (l = lit "END") then [] else l :: before_END ls'
  end.



(** A line pushes a frame (lines 158-165), pops one (line 177). *)
Definition opens (line : str) : bool :=
  regex_search loop_re line || contains "{" line.

Definition closes (line : str) : bool := contains "}" line.

(** The number of lines on which the loop pattern matches. *)
Definition loop_lines (lines : list str) : nat :=
  length (List.filter (fun raw => regex_search loop_re (trim raw)) lines).

(** Lines whose pushes and pops pair up: a line that does neither, a line
    that does both, or a pushing line and a popping line around lines that
    pair up themselves. *)
Inductive balanced : list str -> Prop :=
| balanced_nil : balanced []
| balanced_plain raw ls :
    opens (trim raw) = false -> closes (trim raw) = false ->
    balanced ls -> balanced (raw :: ls)
| balanced_inline raw ls :
    opens (trim raw) = true -> closes (trim raw) = true ->
    balanced ls -> balanced (raw :: ls)
| balanced_block o body c ls :
    opens (trim o) = true -> closes (trim o) = false ->
    balanced body ->
    opens (trim c) = false -> closes (trim c) = true ->
    balanced ls -> balanced (o :: body ++ c :: ls).

(** The line holds [f] as the head of a signature: an identifier with no
    word character before it, white space, a parenthesised text without a
    closing parenthesis, white space, maybe [const], white space, and one of
    the characters [closers]. *)
Definition signature_at (closers line f : str) : Prop :=
  exists pre sp args w1 k w2 c post,
    line = pre ++ f ++ sp ++ "("%char :: args ++ ")"%char :: w1 ++ k ++ w2 ++ c :: post /\
    identifier f /\ ends_in_word pre = false /\
    forallb is_space sp = true /\ forallb (not_char ")") args = true /\
    forallb is_space w1 = true /\ (k = [] \/ k = lit "const") /\
    forallb is_space w2 = true /\ In c closers.


(** ** Correctness of the matcher *)

Section StarRun.

Variable step : mstate -> list mstate.
Variable r : regex.
Hypothesis step_spec : forall st st', In st' (step st) <-> matches r st st'.

Lemma star_run_sound :
  forall fuel st st', In st' (star_run step fuel st) -> matches (Star r) st st'.
Proof.
  intros fuel. induction fuel as [|n IH]; intros st st' Hin; simpl in Hin.
  - destruct Hin as [<- | []]. constructor.
  - apply in_app_iff in Hin. destruct Hin as [Hin | [<- | []]]; [| constructor].
    apply in_flat_map in Hin. destruct Hin as (st1 & H1 & H2).
    destruct (Nat.ltb_spec (length (rest st1)) (length (rest st))) as [Hlt|]; [| destruct H2].
    apply M_StarStep with (st1 := st1); [now apply step_spec | assumption | now apply IH].
Qed.

(** Fuel equal to the length of the unread text is enough. *)
Lemma star_run_complete :
  forall st st', matches (Star r) st st' ->
  forall fuel, (length (rest st) <= fuel)%nat -> In st' (star_run step fuel st).
Proof.
  intros st st' HM. remember (Star r) as sr eqn:Esr.
  induction HM; inversion Esr; subst; intros fuel Hfuel.
  - destruct fuel; simpl; [left | apply in_app_iff; right; left]; reflexivity.
  - destruct fuel as [|n]; [lia|]. simpl. apply in_app_iff. left.
    apply in_flat_map. exists st1. split; [now apply step_spec|].
    destruct (Nat.ltb_spec (length (rest st1)) (length (rest st))); [| lia].
    apply IHHM2; [reflexivity | lia].
Qed.

End StarRun.

Section MatcherCorrect.

Theorem matcher_spec (r : regex) :
  forall st st', In st' (matcher r st) <-> matches r st st'.
Proof.
  induction r as [| p | r1 IH1 r2 IH2 | r1 IH1 r2 IH2 | r IH | n r IH | | |];
    intros st st'; simpl.
  - split; [intros [<- | []]; constructor | inversion 1; subst; now left].
  - destruct st as [o s k]; simpl. split.
    + destruct s as [|a s]; [intros []|].
      destruct (p a) eqn:Hp; [| intros []].
      intros [<- | []]. now constructor.
    + inversion 1; subst.
      match goal with Hp : p _ = true |- _ => rewrite Hp end. now left.
  - rewrite in_flat_map. split.
    + intros (st1 & H1 & H2). apply IH1 in H1. apply IH2 in H2. eauto with regex.
    + inversion 1; subst. exists st1. split; [now apply IH1 | now apply IH2].
  - rewrite in_app_iff, IH1, IH2. split.
    + intros [H | H]; eauto with regex.
    + inversion 1; subst; auto.
  - split.
    + apply star_run_sound. exact IH.
    + intros H. apply star_run_complete with (r := r); [exact IH | exact H | lia].
  - rewrite in_map_iff. split.
    + intros (st1 & <- & H). apply IH in H. now constructor.
    + inversion 1; subst. eexists. split; [reflexivity | now apply IH].
  - destruct (word_boundary st) eqn:Hb; split.
    + intros [<- | []]. now constructor.
    + inversion 1; subst. now left.
    + intros [].
    + inversion 1; subst. congruence.
  - destruct (at_bol st) eqn:Hb; split.
    + intros [<- | []]. now constructor.
    + inversion 1; subst. now left.
    + intros [].
    + inversion 1; subst. congruence.
  - destruct (at_eol st) eqn:Hb; split.
    + intros [<- | []]. now constructor.
    + inversion 1; subst. now left.
    + intros [].
    + inversion 1; subst. congruence.
Qed.

Lemma prev_after_app p w1 w2 :
  prev_after p (w1 ++ w2) = prev_after (prev_after p w1) w2.
Proof. apply fold_left_app. Qed.

(** A match reads a prefix of the unread text and nothing else. *)
Lemma matches_reads r st st' :
  matches r st st' ->
  exists w, rest st = w ++ rest st' /\ prev st' = prev_after (prev st) w.
Proof.
  induction 1; simpl.
  1, 9, 10, 11: exists []; auto.
  - exists [a]; auto.
  - destruct IHmatches1 as (w1 & E1 & P1), IHmatches2 as (w2 & E2 & P2).
    exists (w1 ++ w2). rewrite prev_after_app, <- P1, <- P2, E1, E2.
    now rewrite app_assoc.
  - assumption.
  - assumption.
  - exists []; auto.
  - destruct IHmatches1 as (w1 & E1 & P1), IHmatches2 as (w2 & E2 & P2).
    exists (w1 ++ w2). rewrite prev_after_app, <- P1, <- P2, E1, E2.
    now rewrite app_assoc.
  - assumption.
Qed.

Lemma consumed_app st st' w : rest st = w ++ rest st' -> consumed st st' = w.
Proof.
  intros E. unfold consumed. rewrite E, length_app.
  replace (length w + length (rest st') - length (rest st'))%nat with (length w) by lia.
  rewrite firstn_app, Nat.sub_diag, firstn_all. simpl. apply app_nil_r.
Qed.

(** A pattern without groups records nothing and does not look at what was
    recorded. *)
Lemma matches_no_groups r st st' :
  matches r st st' -> no_groups r = true ->
  caps st' = caps st /\ forall k, matches r (with_caps k st) (with_caps k st').
Proof.
  induction 1; simpl; intros Hng;
    try (apply andb_prop in Hng; destruct Hng as [Hng1 Hng2]);
    try discriminate.
  - split; [reflexivity | constructor].
  - split; [reflexivity | intros; now constructor].
  - destruct (IHmatches1 Hng1) as [C1 K1], (IHmatches2 Hng2) as [C2 K2].
    split; [congruence | eauto with regex].
  - destruct (IHmatches Hng1); eauto with regex.
  - destruct (IHmatches Hng2); eauto with regex.
  - split; [reflexivity | constructor].
  - destruct (IHmatches1 Hng) as [C1 K1], (IHmatches2 Hng) as [C2 K2].
    split; [congruence |]. intros k. eapply M_StarStep; eauto.
  - split; [reflexivity | intros; now constructor].
  - split; [reflexivity | intros; now constructor].
  - split; [reflexivity | intros; now constructor].
Qed.

Lemma matches_Lit f p s k :
  matches (Lit f) (MState p (f ++ s) k) (MState (prev_after p f) s k).
Proof.
  revert p. induction f as [|a f IH]; intros p; simpl; [constructor|].
  econstructor; [constructor; apply Ascii.eqb_refl | apply IH].
Qed.

(** [search_from] finds a match iff there is one at some later position. *)
Lemma search_from_sound r s :
  forall p sk m, search_from r p s sk = Some m ->
  exists w, s = w ++ rest (m_start m) /\
            m_start m = MState (prev_after p w) (rest (m_start m)) [] /\
            m_prefix m = rev sk ++ w /\
            matches r (m_start m) (m_end m).
Proof.
  induction s as [|a s IH]; intros p sk m; simpl.
  - destruct (matcher r (MState p [] [])) as [|st' l] eqn:E; [discriminate|].
    intros [= <-]. exists []. simpl. rewrite app_nil_r. repeat split.
    apply matcher_spec. rewrite E. now left.
  - destruct (matcher r (MState p (a :: s) [])) as [|st' l] eqn:E.
    + intros H. apply IH in H. destruct H as (w & E1 & E2 & E3 & HM).
      exists (a :: w). simpl. rewrite <- E1. repeat split; auto.
      rewrite E3. simpl. now rewrite <- app_assoc.
    + intros [= <-]. exists []. simpl. rewrite app_nil_r. repeat split.
      apply matcher_spec. rewrite E. now left.
Qed.

Lemma search_from_complete r w :
  forall p s sk st',
  matches r (MState (prev_after p w) s []) st' ->
  exists m, search_from r p (w ++ s) sk = Some m.
Proof.
  induction w as [|a w IH]; intros p s sk st' HM; simpl in *.
  - apply matcher_spec in HM.
    destruct s; simpl; destruct (matcher r _); [destruct HM | eauto | destruct HM | eauto].
  - destruct (matcher r (MState p (a :: w ++ s) [])); [| eauto].
    eapply IH; eauto.
Qed.

Lemma regex_search_intro r w s st' :
  matches r (MState (prev_after None w) s []) st' ->
  regex_search r (w ++ s) = true.
Proof.
  intros HM. unfold regex_search, regex_search_m.
  destruct (search_from_complete r w None s [] st' HM) as [m ->]. reflexivity.
Qed.

End MatcherCorrect.

(** ** Facts about the patterns of the analyzer *)

Section Patterns.

Lemma ident_start_word a : ident_start a = true -> is_word a = true.
Proof.
  unfold ident_start, is_word.
  destruct (is_lower a), (is_upper a), (is_underscore a), (is_digit a); auto.
Qed.

Lemma ident_char_word a : ident_char a = is_word a.
Proof.
  unfold ident_char, is_word.
  destruct (is_lower a), (is_upper a), (is_underscore a), (is_digit a); auto.
Qed.

(** What a starred character class reads. *)
Lemma matches_star_class p st st' :
  matches (Star (Chr p)) st st' ->
  exists w, rest st = w ++ rest st' /\ Forall (fun a => p a = true) w.
Proof.
  intros HM. remember (Star (Chr p)) as r eqn:Er.
  induction HM; inversion Er; subst.
  - exists []. auto.
  - destruct (IHHM2 eq_refl) as (w & E & F).
    inv HM1. simpl in *. exists (a :: w). rewrite E. auto.
Qed.

Lemma identifier_word f : identifier f -> Forall (fun c => is_word c = true) f.
Proof.
  destruct f as [|a f']; [intros [] | intros [Ha Hf]].
  constructor; [now apply ident_start_word|].
  eapply List.Forall_impl; [| exact Hf]. intros c Hc. now rewrite <- ident_char_word.
Qed.

Lemma matches_ident st st' :
  matches ident_re st st' -> identifier (consumed st st').
Proof.
  intros HM. inv HM.
  match goal with H : matches (Chr _) _ _ |- _ => inv H end.
  match goal with H : matches (Star _) _ _ |- _ =>
    apply matches_star_class in H; destruct H as (w & E & F) end.
  simpl in *. rewrite (consumed_app _ _ (a :: w)); [| simpl; now rewrite E].
  split; assumption.
Qed.

Lemma matches_Seq_inv r1 r2 st st2 :
  matches (Seq r1 r2) st st2 ->
  exists st1, matches r1 st st1 /\ matches r2 st1 st2.
Proof. inversion 1; subst; eauto. Qed.

Lemma matches_Group_inv n r st st2 :
  matches (Group n r) st st2 ->
  exists st1, matches r st st1 /\ st2 = set_cap n (consumed st st1) st1.
Proof. inversion 1; subst; eauto. Qed.

Lemma matches_WordB_inv st st' :
  matches WordB st st' -> st' = st /\ word_boundary st = true.
Proof. inversion 1; subst; auto. Qed.

(** What a successful match of the signature pattern looks like: the name
    (sub-match 1) is an identifier, it stands at a word boundary and is
    followed by blanks and an opening parenthesis, which is all that the
    recursion pattern asks for. *)
Lemma signature_match closers line m :
  regex_search_m (signature_re closers) line = Some m ->
  identifier (m_sub 1 m) /\
  regex_search (recursive_re (m_sub 1 m)) line = true.
Proof.
  intros Hs. apply search_from_sound in Hs.
  destruct Hs as (w & Eline & Est & _ & HM).
  destruct m as [pre st0 st_end]. simpl in *.
  apply matches_Seq_inv in HM. destruct HM as (st0' & Hb & HM).
  apply matches_WordB_inv in Hb. destruct Hb as [-> Hb].
  apply matches_Seq_inv in HM. destruct HM as (sg & Hg & Htail).
  apply matches_Group_inv in Hg. destruct Hg as (st1 & Hid & ->).
  assert (Hcaps : caps st_end = (1%nat, consumed st0 st1) :: caps st1).
  { apply matches_no_groups in Htail; [| reflexivity]. apply Htail. }
  unfold m_sub. simpl. rewrite Hcaps. simpl.
  split; [now apply matches_ident|].
  destruct (matches_reads _ _ _ Hid) as (f & Ef & Pf).
  rewrite (consumed_app _ _ f Ef).
  apply matches_Seq_inv in Htail. destruct Htail as (st2 & Hws & Htail).
  apply matches_Seq_inv in Htail. destruct Htail as (st4 & Hpar & _).
  apply matches_Seq_inv in Hpar. destruct Hpar as (st3 & Hpar & _).
  apply matches_no_groups in Hws; [| reflexivity]. destruct Hws as [_ Hws].
  apply matches_no_groups in Hpar; [| reflexivity]. destruct Hpar as [_ Hpar].
  specialize (Hws []). specialize (Hpar []).
  rewrite Eline. apply (regex_search_intro _ w (rest st0) (with_caps [] st3)).
  rewrite <- Est. unfold recursive_re.
  apply M_Seq with (st1 := st0); [now constructor|].
  apply M_Seq with (st1 := with_caps [] st1).
  { rewrite Est. unfold with_caps. simpl. rewrite Ef, Pf, Est. simpl.
    apply matches_Lit. }
  apply M_Seq with (st1 := with_caps [] st2); assumption.
Qed.

(** A name spelled out in the line, at a word boundary and followed at once
    by an opening parenthesis, is found by the recursion pattern. *)
Lemma recursive_re_found pre f post :
  identifier f ->
  word_before (MState (prev_after None pre) [] []) = false ->
  regex_search (recursive_re f) (pre ++ f ++ "("%char :: post) = true.
Proof.
  intros Hid Hb.
  apply (regex_search_intro _ pre _ (MState (Some "("%char) post [])).
  unfold recursive_re. econstructor.
  { constructor. unfold word_boundary, word_before, word_after in *. simpl in *.
    rewrite Hb. destruct f as [|a f']; [destruct Hid|]. simpl.
    destruct Hid as [Ha _]. now rewrite (ident_start_word _ Ha). }
  econstructor; [apply matches_Lit|].
  econstructor; [apply M_StarStop|].
  now constructor.
Qed.

End Patterns.

(** ** [trim] strips leading and trailing white space *)

Section Trim.

Lemma matches_Alt_inv r1 r2 st st' :
  matches (Alt r1 r2) st st' -> matches r1 st st' \/ matches r2 st st'.
Proof. inversion 1; subst; auto. Qed.

Lemma matches_Chr_inv p st st' :
  matches (Chr p) st st' ->
  exists a s, rest st = a :: s /\ p a = true /\ st' = MState (Some a) s (caps st).
Proof. inversion 1; subst; simpl; eauto. Qed.

Lemma matches_Bol_inv st st' : matches Bol st st' -> st' = st /\ at_bol st = true.
Proof. inversion 1; subst; auto. Qed.

Lemma matches_Eol_inv st st' : matches Eol st st' -> st' = st /\ at_eol st = true.
Proof. inversion 1; subst; auto. Qed.

Lemma matches_star_all p w :
  forall o s k,
  Forall (fun a => p a = true) w ->
  matches (Star (Chr p)) (MState o (w ++ s) k) (MState (prev_after o w) s k).
Proof.
  induction w as [|a w IH]; intros o s k Hw; simpl.
  - constructor.
  - inversion Hw as [|? ? Ha Hw']; subst.
    apply M_StarStep with (st1 := MState (Some a) (w ++ s) k).
    + now constructor.
    + simpl. lia.
    + now apply IH.
Qed.

Lemma length_drop_space s : (length (drop_space s) <= length s)%nat.
Proof.
  induction s as [|a s IH]; simpl; [lia|]. destruct (is_space a); simpl; lia.
Qed.

(** Past the start of the subject only the second alternative can match: it
    needs the whole rest of the text to be white space. *)
Lemma trim_re_inner p s st' :
  matches trim_re (MState (Some p) s []) st' ->
  rest st' = [] /\ s <> [] /\ forallb is_space s = true.
Proof.
  intros HM. apply matches_Alt_inv in HM. destruct HM as [HM | HM].
  - apply matches_Seq_inv in HM. destruct HM as (st1 & Hb & _).
    apply matches_Bol_inv in Hb. destruct Hb as [_ Hb]. discriminate Hb.
  - apply matches_Seq_inv in HM. destruct HM as (st1 & Hp & He).
    apply matches_Eol_inv in He. destruct He as [-> He].
    apply matches_Seq_inv in Hp. destruct Hp as (st0 & Hc & Hs).
    apply matches_Chr_inv in Hc. destruct Hc as (a & s0 & Es & Ha & ->).
    apply matches_star_class in Hs. destruct Hs as (w & Ew & Hw).
    simpl in *. subst s. unfold at_eol in He.
    destruct (rest st1); [| discriminate He].
    rewrite app_nil_r in Ew. subst s0.
    repeat split; [discriminate|]. simpl. rewrite Ha. simpl.
    apply forallb_forall. rewrite List.Forall_forall in Hw. exact Hw.
Qed.

Lemma trim_re_inner_found p a s :
  forallb is_space (a :: s) = true ->
  exists st' l, matcher trim_re (MState (Some p) (a :: s) []) = st' :: l /\ rest st' = [].
Proof.
  intros Hall. simpl in Hall. apply andb_prop in Hall. destruct Hall as [Ha Hs].
  assert (HM : matches trim_re (MState (Some p) (a :: s) [])
                 (MState (prev_after (Some a) s) [] [])).
  { apply M_AltR. eapply M_Seq; [| constructor; reflexivity].
    eapply M_Seq; [now constructor|].
    rewrite <- (app_nil_r s) at 1. apply matches_star_all.
    apply List.Forall_forall. now apply forallb_forall. }
  apply matcher_spec in HM.
  destruct (matcher trim_re (MState (Some p) (a :: s) [])) as [|st' l] eqn:E; [destruct HM|].
  exists st', l. split; [reflexivity|].
  assert (Hin : In st' (matcher trim_re (MState (Some p) (a :: s) [])))
    by (rewrite E; now left).
  apply matcher_spec, trim_re_inner in Hin. apply Hin.
Qed.

Lemma trim_re_inner_none p s :
  forallb is_space s = false \/ s = [] ->
  matcher trim_re (MState (Some p) s []) = [].
Proof.
  intros Hs.
  destruct (matcher trim_re (MState (Some p) s [])) as [|st' l] eqn:E; [reflexivity|].
  assert (Hin : In st' (matcher trim_re (MState (Some p) s [])))
    by (rewrite E; now left).
  apply matcher_spec, trim_re_inner in Hin. destruct Hin as (_ & Hne & Hall).
  destruct Hs; congruence.
Qed.

Lemma consumed_all st st' : rest st' = [] -> consumed st st' = rest st.
Proof. intros E. apply consumed_app. rewrite E. now rewrite app_nil_r. Qed.

(** The scan for a match behind the start of the subject stops at the first
    place from which only white space is left. *)
Lemma search_trailing s :
  forall p sk,
  (search_from trim_re (Some p) s sk = None /\ drop_trailing s = s) \/
  (exists m, search_from trim_re (Some p) s sk = Some m /\
             m_prefix m = rev sk ++ drop_trailing s /\
             rest (m_end m) = [] /\ m_str m <> []).
Proof.
  induction s as [|a s IH]; intros p sk.
  - left. split; [| reflexivity]. cbn [search_from].
    now rewrite trim_re_inner_none by now right.
  - cbn [search_from drop_trailing].
    destruct (forallb is_space (a :: s)) eqn:Hall.
    + right. destruct (trim_re_inner_found p a s Hall) as (st' & l & -> & Hrest).
      eexists. split; [reflexivity|]. simpl. rewrite app_nil_r.
      split; [reflexivity|]. split; [assumption|].
      unfold m_str. simpl. now rewrite consumed_all.
    + rewrite trim_re_inner_none by now left.
      destruct (IH a (a :: sk)) as [[-> ->] | (m & -> & Hp & Hr & Hs)].
      * left. split; reflexivity.
      * right. exists m. split; [reflexivity|]. split; [| split; assumption].
        rewrite Hp. simpl. now rewrite <- app_assoc.
Qed.

Lemma replace_run_S n r p s :
  replace_run (S n) r p s =
  match search_from r p s [] with
  | None => s
  | Some m =>
      m_prefix m ++
      match m_str m, rest (m_end m) with
      | _ :: _, s' => replace_run n r (prev (m_end m)) s'
      | [], [] => []
      | [], a :: s' =>
          match filter (fun st' => (length (rest st') <? S (length s'))%nat)
                       (matcher r (MState (prev (m_end m)) (a :: s') [])) with
          | st' :: _ => replace_run n r (prev st') (rest st')
          | [] => a :: replace_run n r (Some a) s'
          end
      end
  end.
Proof. reflexivity. Qed.

Lemma replace_run_nil n q : replace_run n trim_re q [] = [].
Proof. destruct n; [reflexivity|]. destruct q; reflexivity. Qed.

Lemma replace_trailing n p s :
  replace_run (S n) trim_re (Some p) s = drop_trailing s.
Proof.
  rewrite replace_run_S.
  destruct (search_trailing s p []) as [[-> ->] | (m & -> & Hp & Hr & Hs)]; [reflexivity|].
  rewrite Hp, Hr. destruct (m_str m); [congruence|].
  rewrite replace_run_nil. simpl. apply app_nil_r.
Qed.

(** The greedy star of white space stops in front of the first other
    character. *)
Lemma star_space_first s :
  forall p k,
  exists q l,
    star_run (matcher ws) (length s) (MState (Some p) s k)
    = MState (Some q) (drop_space s) k :: l.
Proof.
  induction s as [|a s IH]; intros p k.
  - exists p, []. reflexivity.
  - cbn [length star_run drop_space]. unfold ws at 2. cbn [matcher rest].
    destruct (is_space a) eqn:Ha.
    + cbn [flat_map rest caps]. rewrite (proj2 (Nat.ltb_lt _ _)) by (simpl; lia).
      destruct (IH a k) as (q & l & ->). exists q. eexists. reflexivity.
    + exists p, []. reflexivity.
Qed.

Lemma matcher_ws o a s k :
  matcher ws (MState o (a :: s) k) =
  if is_space a then [MState (Some a) s k] else [].
Proof. reflexivity. Qed.

Lemma trim_re_first_space a s :
  is_space a = true ->
  exists q l,
    matcher trim_re (MState None (a :: s) []) = MState (Some q) (drop_space s) [] :: l.
Proof.
  intros Ha. unfold trim_re, Plus. cbn [matcher at_bol prev flat_map].
  rewrite !matcher_ws, Ha. cbn [flat_map rest length].
  destruct (star_space_first s a []) as (q & l & ->).
  exists q. eexists. reflexivity.
Qed.

Lemma trim_re_first_other a s :
  is_space a = false -> matcher trim_re (MState None (a :: s) []) = [].
Proof.
  intros Ha. unfold trim_re, Plus. cbn [matcher at_bol prev flat_map].
  rewrite !matcher_ws, Ha. reflexivity.
Qed.

(** [trim] returns the text without its leading and trailing white space. *)
Theorem trim_strip s : trim s = strip s.
Proof.
  unfold trim, regex_replace_empty, strip.
  destruct s as [|a s]; [reflexivity|].
  change (length (a :: s)) with (S (length s)). generalize (length s) as n. intros n.
  rewrite replace_run_S. cbn [search_from drop_space].
  destruct (is_space a) eqn:Ha.
  - destruct (trim_re_first_space a s Ha) as (q & l & ->).
    cbn [m_prefix rev app m_end rest prev].
    unfold m_str, consumed. cbn [m_start m_end rest length].
    pose proof (length_drop_space s) as Hlen.
    destruct (S (length s) - length (drop_space s))%nat as [|d] eqn:Ed; [lia|].
    cbn [firstn]. apply replace_trailing.
  - rewrite (trim_re_first_other a s Ha).
    cbn [drop_trailing forallb]. rewrite Ha. cbn [andb].
    destruct (search_trailing s a [a]) as [[-> ->] | (m & -> & Hp & Hr & Hs)]; [reflexivity|].
    rewrite Hp, Hr. destruct (m_str m); [congruence|].
    rewrite replace_run_nil. simpl. now rewrite app_nil_r.
Qed.

End Trim.

(** ** Lemmas on the loop of [analyze] *)

Section Loop.

Lemma analyze_loop_eq lines :
  forall i a results,
  analyze_loop i lines a results =
  (results ++ records_from i lines a, after_lines lines a).
Proof.
  induction lines as [|raw lines IH]; intros i a results; simpl.
  - now rewrite app_nil_r.
  - rewrite IH. unfold after_lines. simpl. now rewrite <- app_assoc.
Qed.

Lemma analyze_eq a :
  analyze a =
  (records_from 0 (code_lines a) (track_function_definitions a),
   after_lines (code_lines a) (track_function_definitions a)).
Proof. unfold analyze. now rewrite analyze_loop_eq. Qed.

Lemma after_lines_app l1 l2 a :
  after_lines (l1 ++ l2) a = after_lines l2 (after_lines l1 a).
Proof. apply fold_left_app. Qed.

Lemma records_from_app l1 :
  forall l2 i a,
  records_from i (l1 ++ l2) a =
  records_from i l1 a ++ records_from (i + length l1) l2 (after_lines l1 a).
Proof.
  induction l1 as [|raw l1 IH]; intros l2 i a; simpl.
  - now rewrite Nat.add_0_r.
  - rewrite IH. do 3 f_equal. lia.
Qed.

Lemma records_from_length lines :
  forall i a, length (records_from i lines a) = length lines.
Proof. induction lines; intros; simpl; auto. Qed.

Lemma records_from_lookup lines :
  forall i a k raw,
  lines !! k = Some raw ->
  records_from i lines a !! k =
  Some (fst (analyze_step (i + k) raw (after_lines (firstn k lines) a))).
Proof.
  induction lines as [|x lines IH]; intros i a k raw Hk; [discriminate|].
  destruct k as [|k]; simpl in *.
  - injection Hk as ->. now rewrite Nat.add_0_r.
  - rewrite (IH _ _ _ _ Hk). do 3 f_equal. lia.
Qed.

Lemma last_cons_default {A} (x d : A) l : List.last (x :: l) d = List.last l x.
Proof.
  revert x d. induction l as [|y l IH]; intros x d; [reflexivity|].
  change (List.last (x :: y :: l) d) with (List.last (y :: l) d).
  now rewrite !IH.
Qed.

(** The last state of the trace is the one [analyze] leaves behind. *)
Lemma trace_loop_final lines :
  forall a, List.last (trace_loop lines a) a = after_lines lines a.
Proof.
  induction lines as [|raw lines IH]; intros a; [reflexivity|].
  change (after_lines (raw :: lines) a) with (after_lines lines (after_line raw a)).
  rewrite <- IH. cbn [trace_loop]. now rewrite !last_cons_default.
Qed.

Lemma analyze_trace_final a :
  List.last (analyze_trace a) a = snd (analyze a).
Proof.
  rewrite analyze_eq. simpl snd. rewrite <- trace_loop_final.
  unfold analyze_trace. now rewrite !last_cons_default.
Qed.

End Loop.

(** ** The invariants hold *)

Section Invariants.

Lemma loop_frames_nonneg bs : 0 <= loop_frames bs.
Proof. induction bs as [|top bs IH]; simpl; [lia|]. destruct (String.eqb top "loop"); lia. Qed.

Lemma track_function_definitions_fields a :
  code_lines (track_function_definitions a) = code_lines a /\
  block_stack (track_function_definitions a) = block_stack a /\
  current_function (track_function_definitions a) = current_function a /\
  nesting_level (track_function_definitions a) = nesting_level a /\
  max_nesting (track_function_definitions a) = max_nesting a.
Proof. repeat split. Qed.

Lemma track_declaration_fields line a :
  code_lines (track_declaration line a) = code_lines a /\
  function_calls (track_declaration line a) = function_calls a /\
  block_stack (track_declaration line a) = block_stack a /\
  nesting_level (track_declaration line a) = nesting_level a /\
  max_nesting (track_declaration line a) = max_nesting a.
Proof. unfold track_declaration. destruct (regex_search_m _ _); repeat split. Qed.

Lemma track_opening_fields line a :
  code_lines (track_opening line a) = code_lines a /\
  function_calls (track_opening line a) = function_calls a /\
  current_function (track_opening line a) = current_function a.
Proof.
  unfold track_opening.
  destruct (regex_search _ _); [| destruct (contains _ _)]; repeat split.
Qed.

Lemma track_closing_fields line a :
  code_lines (track_closing line a) = code_lines a /\
  function_calls (track_closing line a) = function_calls a /\
  current_function (track_closing line a) = current_function a /\
  max_nesting (track_closing line a) = max_nesting a.
Proof.
  unfold track_closing.
  destruct (contains _ _); [destruct (block_stack a) |]; repeat split.
Qed.

Lemma depth_ok_declaration line a : depth_ok a -> depth_ok (track_declaration line a).
Proof.
  unfold depth_ok. destruct (track_declaration_fields line a) as (_ & _ & -> & -> & _).
  auto.
Qed.

Lemma depth_ok_opening line a : depth_ok a -> depth_ok (track_opening line a).
Proof.
  unfold depth_ok, track_opening. intros H.
  destruct (regex_search _ _); [| destruct (contains _ _)]; simpl; lia.
Qed.

Lemma depth_ok_closing line a : depth_ok a -> depth_ok (track_closing line a).
Proof.
  unfold depth_ok, track_closing. intros H.
  destruct (contains _ _); [| assumption].
  destruct (block_stack a) as [|top below] eqn:E; [now rewrite E|].
  simpl in *. destruct (String.eqb top "loop"); lia.
Qed.

Lemma depth_ok_trace_loop lines :
  forall a, depth_ok a -> Forall depth_ok (trace_loop lines a).
Proof.
  induction lines as [|raw lines IH]; intros a Ha; simpl; [constructor|].
  pose proof (depth_ok_declaration (trim raw) a Ha) as H1.
  pose proof (depth_ok_opening (trim raw) _ H1) as H2.
  pose proof (depth_ok_closing (trim raw) _ H2) as H3.
  repeat (constructor; [assumption|]). now apply IH.
Qed.

Lemma depth_ok_trace a : depth_ok a -> Forall depth_ok (analyze_trace a).
Proof.
  intros Ha. unfold analyze_trace. repeat (constructor; [assumption|]).
  now apply depth_ok_trace_loop.
Qed.

Lemma max_le_opening line a : max_le a (track_opening line a).
Proof.
  unfold max_le, track_opening.
  destruct (regex_search _ _); [| destruct (contains _ _)]; simpl; lia.
Qed.

Lemma max_sorted_trace_loop lines :
  forall a, Sorted max_le (a :: trace_loop lines a).
Proof.
  induction lines as [|raw lines IH]; intros a; simpl.
  - repeat constructor.
  - specialize (IH (after_line raw a)).
    pose proof (max_le_opening (trim raw) (track_declaration (trim raw) a)) as Ho.
    destruct (track_declaration_fields (trim raw) a) as (_ & _ & _ & _ & Hd).
    destruct (track_closing_fields (trim raw) (before_classify raw a)) as (_ & _ & _ & Hc).
    unfold max_le, after_line, before_classify in *.
    repeat (constructor; [| constructor]); try assumption; lia.
Qed.

Lemma max_sorted_trace a : StronglySorted max_le (analyze_trace a).
Proof.
  apply Sorted_StronglySorted.
  - intros x y z. unfold max_le. lia.
  - unfold analyze_trace. constructor; [apply max_sorted_trace_loop|].
    constructor. unfold max_le. simpl. lia.
Qed.

Lemma strongly_sorted_lookup {A} (R : A -> A -> Prop) (l : list A) :
  StronglySorted R l ->
  forall i j x y, (i < j)%nat -> l !! i = Some x -> l !! j = Some y -> R x y.
Proof.
  induction 1 as [|a l Hs IH Hall]; intros i j x y Hij Hi Hj; [discriminate|].
  destruct j as [|j]; [lia|]. simpl in Hj.
  destruct i as [|i]; simpl in Hi.
  - injection Hi as <-. rewrite List.Forall_forall in Hall. apply Hall.
    apply list_elem_of_In. eapply list_elem_of_lookup_2; eauto.
  - apply (IH i j); [lia | assumption | assumption].
Qed.

(** Both counters stay between 0 and the number of lines read. *)
Lemma bounded_trace_loop lines :
  forall a m,
  nesting_level a <= max_nesting a <= m ->
  Forall (fun b => nesting_level b <= max_nesting b <= m + Z.of_nat (length lines))
         (trace_loop lines a).
Proof.
  induction lines as [|raw lines IH]; intros a m Ha; [constructor|].
  cbn [trace_loop length]. unfold after_line, before_classify.
  set (a1 := track_declaration (trim raw) a).
  destruct (track_declaration_fields (trim raw) a) as (_ & _ & _ & Hn1 & Hm1).
  fold a1 in Hn1, Hm1.
  assert (H2 : nesting_level (track_opening (trim raw) a1)
               <= max_nesting (track_opening (trim raw) a1) <= m + 1).
  { unfold track_opening.
    destruct (regex_search _ _); [| destruct (contains _ _)]; simpl; lia. }
  set (a2 := track_opening (trim raw) a1) in *.
  assert (H3 : nesting_level (track_closing (trim raw) a2)
               <= max_nesting (track_closing (trim raw) a2) <= m + 1).
  { unfold track_closing. destruct (contains _ _); [| assumption].
    destruct (block_stack a2); [assumption|]. simpl.
    destruct (String.eqb _ _); lia. }
  repeat (constructor; [lia|]).
  specialize (IH _ _ H3). eapply List.Forall_impl; [| exact IH].
  simpl. intros b. lia.
Qed.

Theorem nesting_bounded_by_lines code b :
  In b (analyze_trace (new_analyzer code)) ->
  0 <= nesting_level b <= max_nesting b /\
  max_nesting b <= Z.of_nat (length code).
Proof.
  intros Hin.
  assert (Hok : Forall depth_ok (analyze_trace (new_analyzer code)))
    by (apply depth_ok_trace; reflexivity).
  rewrite List.Forall_forall in Hok. specialize (Hok _ Hin).
  pose proof (loop_frames_nonneg (block_stack b)) as Hnn.
  unfold depth_ok in Hok.
  destruct Hin as [<- | [<- | Hin]]; simpl; try lia.
  pose proof (bounded_trace_loop code (track_function_definitions (new_analyzer code)) 0) as Hb.
  rewrite List.Forall_forall in Hb. specialize (Hb ltac:(simpl; lia) _ Hin).
  simpl in Hb. lia.
Qed.

(** The block counters after a run depend on the lines alone. *)
Lemma blocks_declaration line a : blocks (track_declaration line a) = blocks a.
Proof.
  unfold blocks. destruct (track_declaration_fields line a) as (_ & _ & -> & -> & ->).
  reflexivity.
Qed.

Lemma blocks_opening line a b :
  blocks a = blocks b -> blocks (track_opening line a) = blocks (track_opening line b).
Proof.
  unfold blocks, track_opening. intros [= Hs Hn Hm].
  destruct (regex_search _ _); [| destruct (contains _ _)]; simpl; congruence.
Qed.

Lemma blocks_closing line a b :
  blocks a = blocks b -> blocks (track_closing line a) = blocks (track_closing line b).
Proof.
  unfold blocks, track_closing. intros [= Hs Hn Hm].
  destruct (contains _ _); [| congruence].
  rewrite Hs. destruct (block_stack b) eqn:E; simpl; rewrite ?Hs, ?E, ?Hn, ?Hm; reflexivity.
Qed.

Lemma after_lines_blocks lines :
  forall a b,
  blocks a = blocks b ->
  blocks (after_lines lines a) =
  blocks (fold_left (fun s raw => track_blocks raw s) lines b).
Proof.
  induction lines as [|raw lines IH]; intros a b Hab; [assumption|].
  unfold after_lines. simpl. apply IH.
  unfold after_line, before_classify, track_blocks.
  apply blocks_closing, blocks_opening. now rewrite blocks_declaration.
Qed.

Lemma track_blocks_blocks raw a b :
  blocks a = blocks b -> blocks (track_blocks raw a) = blocks (track_blocks raw b).
Proof. intros H. unfold track_blocks. now apply blocks_closing, blocks_opening. Qed.

Lemma after_lines_blocks_fold lines :
  forall a b,
  blocks a = blocks b ->
  blocks (fold_left (fun s raw => track_blocks raw s) lines a) =
  blocks (fold_left (fun s raw => track_blocks raw s) lines b).
Proof.
  induction lines as [|raw lines IH]; intros a b Hab; [assumption|].
  simpl. apply IH. now apply track_blocks_blocks.
Qed.

End Invariants.

(** ** The classifier inside the loop *)

Section Classifier.

Lemma is_recursive_identifier line f :
  identifier f ->
  regex_search (recursive_re f) line = true ->
  negb (bool_decide (f = [])) && is_recursive line f = true.
Proof.
  intros Hid Hs. destruct f as [|a f]; [destruct Hid|].
  unfold is_recursive. rewrite Hs, andb_true_r. apply negb_true_iff.
  now apply bool_decide_eq_false_2.
Qed.

Lemma current_function_before_classify raw a :
  current_function (before_classify raw a) =
  match regex_search_m declaration_re (trim raw) with
  | Some m => m_sub 1 m
  | None => current_function a
  end.
Proof.
  unfold before_classify.
  destruct (track_opening_fields (trim raw) (track_declaration (trim raw) a)) as (_ & _ & ->).
  unfold track_declaration. now destruct (regex_search_m _ _).
Qed.

Lemma current_function_after_line raw a :
  current_function (after_line raw a) = current_function (before_classify raw a).
Proof.
  unfold after_line.
  now destruct (track_closing_fields (trim raw) (before_classify raw a)) as (_ & _ & -> & _).
Qed.

Lemma current_function_kept lines :
  forall a,
  (forall x, In x lines -> regex_search_m declaration_re (trim x) = None) ->
  current_function (after_lines lines a) = current_function a.
Proof.
  induction lines as [|raw lines IH]; intros a Hnone; [reflexivity|].
  change (after_lines (raw :: lines) a) with (after_lines lines (after_line raw a)).
  rewrite IH by (intros x Hx; apply Hnone; now right).
  rewrite current_function_after_line, current_function_before_classify.
  now rewrite (Hnone raw) by now left.
Qed.

(** A line on which the signature pattern matches is classified with its
    own name already active. *)
Lemma declaration_line_class i raw a m :
  regex_search_m declaration_re (trim raw) = Some m ->
  is_comment (trim raw) = false ->
  regex_search loop_re (trim raw) = false ->
  complexity (fst (analyze_step i raw a)) = LINEARITHMIC.
Proof.
  intros Hm Hc Hl. simpl. unfold analyze_line. rewrite Hc, Hl.
  rewrite current_function_before_classify, Hm.
  destruct (signature_match _ _ _ Hm) as [Hid Hrec].
  now rewrite is_recursive_identifier.
Qed.

(** A line that spells out the active name before an opening parenthesis. *)
Lemma call_line_class i raw a pre post :
  identifier (current_function a) ->
  trim raw = pre ++ current_function a ++ "("%char :: post ->
  ends_in_word pre = false ->
  is_comment (trim raw) = false ->
  regex_search loop_re (trim raw) = false ->
  complexity (fst (analyze_step i raw a)) = LINEARITHMIC.
Proof.
  intros Hid Htext Hpre Hc Hl.
  destruct (regex_search_m declaration_re (trim raw)) as [m|] eqn:Hm.
  - eapply declaration_line_class; eauto.
  - simpl. unfold analyze_line. rewrite Hc, Hl.
    rewrite current_function_before_classify, Hm.
    rewrite is_recursive_identifier; auto.
    rewrite Htext. now apply recursive_re_found.
Qed.

(** A loop opener is classified with its own frame already counted. *)
Lemma loop_line_class i raw a :
  0 <= nesting_level a ->
  is_comment (trim raw) = false ->
  regex_search loop_re (trim raw) = true ->
  complexity (fst (analyze_step i raw a)) =
  if nesting_level a =? 0 then QUADRATIC else CUBIC.
Proof.
  intros Hn Hc Hl. simpl. unfold analyze_line. rewrite Hc, Hl.
  unfold before_classify, track_opening. rewrite Hl. simpl.
  destruct (track_declaration_fields (trim raw) a) as (_ & _ & _ & -> & _).
  destruct (Z.eqb_spec (nesting_level a + 1) 0); [lia|].
  destruct (Z.eqb_spec (nesting_level a + 1) 1), (Z.eqb_spec (nesting_level a) 0);
    try reflexivity; lia.
Qed.

(** The classifier and the records do not read the registry. *)
Lemma analyze_step_registry i raw a fc :
  fst (analyze_step i raw (set_function_calls fc a)) = fst (analyze_step i raw a) /\
  after_line raw (set_function_calls fc a) = set_function_calls fc (after_line raw a).
Proof.
  unfold analyze_step, after_line, before_classify, analyze_line.
  unfold track_declaration, track_opening, track_closing.
  destruct (regex_search_m declaration_re (trim raw));
    destruct (regex_search loop_re (trim raw)); simpl;
    destruct (contains "{" (trim raw)); destruct (contains "}" (trim raw)); simpl;
    try (destruct (block_stack a)); split; reflexivity.
Qed.

Lemma records_from_registry lines :
  forall i a fc,
  records_from i lines (set_function_calls fc a) = records_from i lines a.
Proof.
  induction lines as [|raw lines IH]; intros i a fc; [reflexivity|].
  cbn [records_from]. destruct (analyze_step_registry i raw a fc) as [-> ->].
  now rewrite IH.
Qed.

Lemma after_lines_registry lines :
  forall a fc,
  after_lines lines (set_function_calls fc a) = set_function_calls fc (after_lines lines a).
Proof.
  induction lines as [|raw lines IH]; intros a fc; [reflexivity|].
  change (after_lines (raw :: lines) ?x) with (after_lines lines (after_line raw x)).
  destruct (analyze_step_registry 0 raw a fc) as [_ ->]. apply IH.
Qed.

Lemma analyze_registry a fc :
  fst (analyze (set_function_calls fc a)) = fst (analyze_loop 0 (code_lines a) a []).
Proof.
  rewrite analyze_eq, analyze_loop_eq. simpl.
  unfold track_function_definitions. simpl.
  change (set_function_calls ?x (set_function_calls fc a)) with (set_function_calls x a).
  apply records_from_registry.
Qed.

Lemma analyze_registry_fst a fc :
  fst (analyze (set_function_calls fc a)) = fst (analyze a).
Proof.
  rewrite analyze_registry.
  rewrite <- (analyze_registry a (function_calls a)). now destruct a.
Qed.

Lemma analyze_registry_max a fc :
  max_nesting (snd (analyze (set_function_calls fc a))) = max_nesting (snd (analyze a)).
Proof.
  rewrite !analyze_eq. cbn [snd]. unfold track_function_definitions. simpl.
  change (set_function_calls ?x (set_function_calls fc a)) with (set_function_calls x a).
  now rewrite !after_lines_registry.
Qed.

(** Every name the analyzer stores is an identifier. *)
Lemma name_ok_trace_loop lines :
  forall a, name_ok a -> Forall name_ok (trace_loop lines a).
Proof.
  induction lines as [|raw lines IH]; intros a Ha; cbn [trace_loop]; [constructor|].
  assert (H2 : name_ok (before_classify raw a)).
  { unfold name_ok. rewrite current_function_before_classify.
    destruct (regex_search_m declaration_re (trim raw)) as [m|] eqn:Hm; [| exact Ha].
    right. now destruct (signature_match _ _ _ Hm). }
  assert (H1 : name_ok (track_declaration (trim raw) a)).
  { unfold name_ok in *. rewrite current_function_before_classify in H2.
    unfold track_declaration. now destruct (regex_search_m _ _). }
  assert (H3 : name_ok (after_line raw a)).
  { unfold name_ok. now rewrite current_function_after_line. }
  repeat (constructor; [assumption|]). now apply IH.
Qed.

Theorem current_function_identifier code b :
  In b (analyze_trace (new_analyzer code)) -> name_ok b.
Proof.
  intros Hin.
  assert (H : Forall name_ok (analyze_trace (new_analyzer code))).
  { unfold analyze_trace. repeat (constructor; [now left|]).
    apply name_ok_trace_loop. now left. }
  rewrite List.Forall_forall in H. now apply H.
Qed.

End Classifier.

(** ** The claims of the specification *)

(** C1 (the code departs from the claim).  The spec classifies a loop opener
    by the depth before its own frame is counted, and so does [analyze_line]
    taken alone: at depth 0 it answers LINEAR.  But [analyze] pushes the frame
    and increments the depth before it calls [analyze_line], so the single
    loop [for (int i = 0; i < n; i++) {] of a one-line program comes out
    QUADRATIC, while the overall verdict of the same program is LINEAR. *)
Theorem single_loop_classified_quadratic :
  regex_search loop_re for_line = true /\
  nesting_level (new_analyzer [for_line]) = 0 /\
  analyze_line (new_analyzer [for_line]) for_line = LINEAR /\
  map complexity (fst (run [for_line])) = [QUADRATIC] /\
  snd (run [for_line]) = LINEAR.
Proof. vm_compute. repeat split. Qed.

(** C2.  The overall verdict is read off the maximum depth alone: 0 gives
    CONSTANT, 1 LINEAR, 2 QUADRATIC, 3 CUBIC and 4 or more LINEARITHMIC, and
    two analyzers with the same maximum depth get the same verdict.  The
    maximum depth that [analyze] leaves behind is the one of the block
    tracking run on its own, without function tracking or classification; so
    the verdict of a run does not depend on the active function name or on the
    registry it starts with, and a recursion found on a line cannot reach
    it. *)
Theorem overall_verdict_from_max_depth (a b : ComplexityAnalyzer) :
  (max_nesting b = 0 -> estimate_overall_complexity b = CONSTANT) /\
  (max_nesting b = 1 -> estimate_overall_complexity b = LINEAR) /\
  (max_nesting b = 2 -> estimate_overall_complexity b = QUADRATIC) /\
  (max_nesting b = 3 -> estimate_overall_complexity b = CUBIC) /\
  (4 <= max_nesting b -> estimate_overall_complexity b = LINEARITHMIC) /\
  (forall b', max_nesting b' = max_nesting b ->
              estimate_overall_complexity b' = estimate_overall_complexity b) /\
  max_nesting (snd (analyze a)) =
  max_nesting (fold_left (fun s raw => track_blocks raw s) (code_lines a) a) /\
  (forall (f : str) (fc : gmap str Z),
     estimate_overall_complexity
       (snd (analyze (set_current_function f (set_function_calls fc a))))
     = estimate_overall_complexity (snd (analyze a))).
Proof.
  assert (Hmax : forall x, max_nesting (snd (analyze x)) =
            max_nesting (fold_left (fun s raw => track_blocks raw s) (code_lines x) x)).
  { intros x. rewrite analyze_eq. simpl snd.
    pose proof (after_lines_blocks (code_lines x) (track_function_definitions x) x eq_refl) as H.
    unfold blocks in H. congruence. }
  unfold estimate_overall_complexity.
  repeat split; try (intros ->; reflexivity).
  - intros H. destruct (max_nesting b) as [|p|p]; [lia | | lia].
    destruct p as [[[|[]|]|[|[]|]|]|[[|[]|]|[|[]|]|]|]; try reflexivity; lia.
  - intros b' ->. reflexivity.
  - apply Hmax.
  - intros f fc. rewrite (Hmax a), (Hmax (set_current_function f (set_function_calls fc a))).
    cbn [code_lines set_current_function set_function_calls].
    pose proof (after_lines_blocks_fold (code_lines a)
                  (set_current_function f (set_function_calls fc a)) a eq_refl) as H.
    unfold blocks in H. cbn [code_lines set_current_function set_function_calls] in H.
    now replace (max_nesting _) with (max_nesting
      (fold_left (fun s raw => track_blocks raw s) (code_lines a) a)) by congruence.
Qed.

Lemma overall_verdict_witness :
  estimate_overall_complexity (snd (analyze (new_analyzer [fib_line; fib_call]))) = CONSTANT /\
  estimate_overall_complexity
    (snd (analyze (new_analyzer [for_line; for_line; for_line; for_line]))) = LINEARITHMIC.
Proof.
  split.
  - destruct (overall_verdict_from_max_depth (new_analyzer [])
                (snd (analyze (new_analyzer [fib_line; fib_call]))))
      as (H0 & _).
    apply H0. vm_compute. reflexivity.
  - destruct (overall_verdict_from_max_depth (new_analyzer [])
                (snd (analyze (new_analyzer [for_line; for_line; for_line; for_line]))))
      as (_ & _ & _ & _ & H4 & _).
    apply H4. vm_compute. discriminate.
Defined.

(** C3 (counterexample).  With [fib] active, the comment line [// fib(n-1)]
    spells the name before an opening parenthesis and is no loop opener, yet
    it is classified CONSTANT: the comment test comes first.  The line
    [myfib(2);] also contains [fib(], but not at a word boundary, and is
    classified UNKNOWN. *)
Lemma active_name_in_comment_not_linearithmic :
  option_map (m_sub 1) (regex_search_m declaration_re (trim fib_line)) = Some (lit "fib") /\
  trim (lit "// fib(n-1)") = lit "// " ++ lit "fib" ++ "("%char :: lit "n-1)" /\
  regex_search loop_re (trim (lit "// fib(n-1)")) = false /\
  trim (lit "myfib(2);") = lit "my" ++ lit "fib" ++ "("%char :: lit "2);" /\
  regex_search loop_re (trim (lit "myfib(2);")) = false /\
  map complexity (fst (run [fib_line; lit "// fib(n-1)"; lit "myfib(2);"]))
  = [LINEARITHMIC; CONSTANT; UNKNOWN].
Proof. vm_compute. repeat split. Qed.

(** C3 (amended).  Let line [d] match the signature pattern with name [f] and
    let no line between [d] and a later line [c] match it.  If the trimmed
    [c] is not a comment line and not a loop opener, and contains [f] starting
    at a word boundary and followed at once by an opening parenthesis, then
    the record of [c] is LINEARITHMIC. *)
Theorem active_name_call_linearithmic
  (l1 l2 l3 : list str) (d c : str) (m : match_results) (pre post : str) :
  regex_search_m declaration_re (trim d) = Some m ->
  (forall x, In x l2 -> regex_search_m declaration_re (trim x) = None) ->
  trim c = pre ++ m_sub 1 m ++ "("%char :: post ->
  ends_in_word pre = false ->
  is_comment (trim c) = false ->
  regex_search loop_re (trim c) = false ->
  exists r,
    fst (analyze (new_analyzer (l1 ++ d :: l2 ++ c :: l3)))
      !! (length l1 + 1 + length l2)%nat = Some r /\
    complexity r = LINEARITHMIC.
Proof.
  intros Hm Hnone Htext Hpre Hc Hl.
  rewrite analyze_eq. simpl code_lines.
  set (code := l1 ++ d :: l2 ++ c :: l3).
  set (k := (length l1 + 1 + length l2)%nat).
  assert (Hcode : code = (l1 ++ d :: l2) ++ c :: l3).
  { unfold code. now rewrite <- app_assoc. }
  assert (Hlen : length (l1 ++ d :: l2) = k).
  { unfold k. rewrite length_app. simpl. lia. }
  assert (Hk : code !! k = Some c).
  { rewrite Hcode, <- Hlen. now rewrite list_lookup_middle. }
  cbn [fst]. rewrite (records_from_lookup _ _ _ _ _ Hk).
  eexists. split; [reflexivity|].
  assert (Hfirst : firstn k code = l1 ++ d :: l2).
  { rewrite Hcode, <- Hlen. rewrite firstn_app, Nat.sub_diag, firstn_all. simpl.
    apply app_nil_r. }
  rewrite Hfirst.
  set (a := after_lines (l1 ++ d :: l2) _).
  assert (Hf : current_function a = m_sub 1 m).
  { unfold a. rewrite after_lines_app.
    change (after_lines (d :: l2) ?x) with (after_lines l2 (after_line d x)).
    rewrite current_function_kept by assumption.
    now rewrite current_function_after_line, current_function_before_classify, Hm. }
  apply call_line_class with (pre := pre) (post := post); rewrite ?Hf; auto.
  now destruct (signature_match _ _ _ Hm).
Qed.

Lemma active_name_call_witness :
  exists r,
    fst (analyze (new_analyzer ([] ++ fib_line :: [lit "  if (n < 2) return n;"] ++ fib_call :: [])))
      !! (length (@nil str) + 1 + length [lit "  if (n < 2) return n;"])%nat = Some r /\
    complexity r = LINEARITHMIC.
Proof.
  destruct (regex_search_m declaration_re (trim fib_line)) as [m|] eqn:Hm;
    [| vm_compute in Hm; discriminate Hm].
  apply (active_name_call_linearithmic [] [lit "  if (n < 2) return n;"] [] fib_line fib_call
           m (lit "return ") (lit "n-1) + fib(n-2);")).
  - exact Hm.
  - intros x [<- | []]. vm_compute. reflexivity.
  - vm_compute in Hm. injection Hm as <-. vm_compute. reflexivity.
  - vm_compute. reflexivity.
  - vm_compute. reflexivity.
  - vm_compute. reflexivity.
Defined.

(** C4 (counterexample).  The definition line [int fib(int n) {] is not a
    comment, not a loop opener and not a call statement, and it is classified
    LINEARITHMIC, not CONSTANT: its own name is already active when it is
    classified. *)
Lemma definition_line_classified_linearithmic :
  option_map (m_sub 1) (regex_search_m declaration_re (trim fib_line)) = Some (lit "fib") /\
  is_comment (trim fib_line) = false /\
  regex_search loop_re (trim fib_line) = false /\
  regex_search call_re (trim fib_line) = false /\
  current_function (before_classify fib_line (new_analyzer [fib_line])) = lit "fib" /\
  map complexity (fst (run [fib_line])) = [LINEARITHMIC].
Proof. vm_compute. repeat split. Qed.

(** C4 (amended).  When the signature pattern matches on a line, the extracted
    name is the active function name already in the state in which that line
    is classified, it is still active after the line, and it stays active over
    any following lines on which the pattern does not match.  The definition
    line itself, when it is neither a comment line nor a loop opener, is
    classified LINEARITHMIC. *)
Theorem declared_name_active_on_its_own_line
  (a : ComplexityAnalyzer) (i : nat) (raw : str) (m : match_results) (later : list str) :
  regex_search_m declaration_re (trim raw) = Some m ->
  current_function (before_classify raw a) = m_sub 1 m /\
  current_function (after_line raw a) = m_sub 1 m /\
  ((forall x, In x later -> regex_search_m declaration_re (trim x) = None) ->
   current_function (after_lines later (after_line raw a)) = m_sub 1 m) /\
  (is_comment (trim raw) = false ->
   regex_search loop_re (trim raw) = false ->
   complexity (fst (analyze_step i raw a)) = LINEARITHMIC).
Proof.
  intros Hm.
  assert (H1 : current_function (before_classify raw a) = m_sub 1 m)
    by now rewrite current_function_before_classify, Hm.
  assert (H2 : current_function (after_line raw a) = m_sub 1 m)
    by now rewrite current_function_after_line.
  repeat split; auto.
  - intros Hnone. now rewrite current_function_kept.
  - intros Hc Hl. eapply declaration_line_class; eauto.
Qed.

Lemma declared_name_active_witness :
  complexity (fst (analyze_step 0 fib_line (new_analyzer [fib_line; fib_call]))) = LINEARITHMIC /\
  current_function (after_lines [fib_call] (after_line fib_line (new_analyzer [fib_line; fib_call])))
  = lit "fib".
Proof.
  destruct (regex_search_m declaration_re (trim fib_line)) as [m|] eqn:Hm;
    [| vm_compute in Hm; discriminate Hm].
  destruct (declared_name_active_on_its_own_line
              (new_analyzer [fib_line; fib_call]) 0 fib_line m [fib_call] Hm)
    as (_ & _ & Hlater & Hclass).
  split.
  - apply Hclass; vm_compute; reflexivity.
  - rewrite Hlater.
    + vm_compute in Hm. injection Hm as <-. vm_compute. reflexivity.
    + intros x [<- | []]. vm_compute. reflexivity.
Defined.

(** C5 (counterexample).  No input and no registry content make a difference:
    the classification pass started with any registry whatever, in particular
    one that the pre-pass never filled, returns the classes that [analyze]
    returns.  The registry is written by the pre-pass and read by nothing. *)
Lemma registry_changes_no_classification :
  ~ exists (code : list str) (fc : gmap str Z),
      map complexity
          (fst (analyze_loop 0 code (set_function_calls fc (new_analyzer code)) []))
      <> map complexity (fst (analyze (new_analyzer code))).
Proof.
  intros (code & fc & Hne). apply Hne. f_equal.
  rewrite analyze_eq, analyze_loop_eq. simpl.
  unfold track_function_definitions.
  now rewrite !records_from_registry.
Qed.

(** C5 (amended).  The per-line output does not depend on the registry: the
    classifier answers the same whatever the registry holds, and the records
    of the second pass are the same for every registry it is started with, so
    they are those of [analyze].  The recursion test reads the active
    function name and the line only. *)
Theorem classification_independent_of_registry
  (a : ComplexityAnalyzer) (fc : gmap str Z) (line : str) :
  analyze_line (set_function_calls fc a) line = analyze_line a line /\
  fst (analyze_loop 0 (code_lines a) (set_function_calls fc a) []) = fst (analyze a) /\
  fst (analyze (set_function_calls fc a)) = fst (analyze a).
Proof.
  split; [reflexivity|]. split.
  - rewrite analyze_eq, analyze_loop_eq. simpl.
    unfold track_function_definitions. now rewrite !records_from_registry.
  - apply analyze_registry_fst.
Qed.

Lemma line_number_of_blank_lines (n k : nat) :
  (k < n)%nat ->
  replicate n (@nil ascii) !! k = Some [] /\
  exists r,
    fst (analyze (new_analyzer (replicate n []))) !! k = Some r /\
    line_number r = static_cast_int (Z.of_nat k + 1).
Proof.
  intros Hlt.
  assert (Hk : replicate n (@nil ascii) !! k = Some [])
    by now apply lookup_replicate_2.
  split; [exact Hk|].
  rewrite analyze_eq. cbn [fst code_lines new_analyzer].
  rewrite (records_from_lookup _ _ _ _ _ Hk).
  eexists. split; [reflexivity|].
  cbn [analyze_step fst line_number]. now rewrite Nat.add_0_l.
Qed.

(** C6 (counterexample).  The line number of a record is the loop index
    plus one converted to [int].  On an input of 2^31 lines (empty ones
    here) the record of the last line, at index 2^31 - 1, does not carry the
    1-based number 2^31 but -2^31. *)
Lemma line_number_wraps :
  exists r,
    replicate (Z.to_nat (2 ^ 31)) (@nil ascii) !! Z.to_nat (2 ^ 31 - 1) = Some [] /\
    fst (analyze (new_analyzer (replicate (Z.to_nat (2 ^ 31)) [])))
      !! Z.to_nat (2 ^ 31 - 1) = Some r /\
    line_number r = - 2 ^ 31 /\
    line_number r <> Z.of_nat (Z.to_nat (2 ^ 31 - 1)) + 1.
Proof.
  destruct (line_number_of_blank_lines (Z.to_nat (2 ^ 31)) (Z.to_nat (2 ^ 31 - 1)))
    as (Hk & r & Hr & Hn); [lia|].
  exists r. split; [exact Hk|]. split; [exact Hr|].
  rewrite Hn, Z2Nat.id by lia.
  split; [vm_compute; reflexivity | vm_compute; discriminate].
Qed.

(** C6 (amended).  [analyze] returns one record per line of the input, in the
    order of the input: the record at index [k] carries the text of line [k]
    as [trim] returns it, which is the line without its leading and trailing
    white space, and the line number [k + 1] converted to [int], which is the
    1-based line number [k + 1] whenever the input has fewer than 2^31
    lines. *)
Theorem one_record_per_line (a : ComplexityAnalyzer) :
  length (fst (analyze a)) = length (code_lines a) /\
  forall (k : nat) (raw : str),
    code_lines a !! k = Some raw ->
    exists r,
      fst (analyze a) !! k = Some r /\
      code r = trim raw /\ code r = strip raw /\
      line_number r = static_cast_int (Z.of_nat k + 1) /\
      (Z.of_nat (length (code_lines a)) < 2 ^ 31 -> line_number r = Z.of_nat k + 1).
Proof.
  rewrite analyze_eq. cbn [fst]. split; [apply records_from_length|].
  intros k raw Hk. rewrite (records_from_lookup _ _ _ _ _ Hk).
  eexists. split; [reflexivity|]. simpl.
  split; [reflexivity|]. split; [apply trim_strip|]. split; [reflexivity|].
  intros Hlen. apply lookup_lt_Some in Hk.
  unfold static_cast_int.
  rewrite Z.mod_small by lia.
  destruct (Z.ltb_spec (Z.of_nat k + 1) (2 ^ 31)); lia.
Qed.

Lemma one_record_per_line_witness :
  exists r,
    fst (analyze (new_analyzer [fib_line; fib_call])) !! 1%nat = Some r /\
    code r = lit "return fib(n-1) + fib(n-2);" /\ line_number r = 2.
Proof.
  destruct (one_record_per_line (new_analyzer [fib_line; fib_call])) as [_ H].
  destruct (H 1%nat fib_call eq_refl) as (r & Hr & Hcode & _ & _ & Hnum).
  exists r. split; [exact Hr|]. split.
  - rewrite Hcode. vm_compute. reflexivity.
  - apply Hnum. vm_compute. reflexivity.
Defined.

(** C7 (counterexample).  [analyze] does not reset the members it works on.
    Called a second time on the same analyzer, over the same one-line input,
    it starts at depth 1 with one frame on the stack: the record changes from
    QUADRATIC to CUBIC and the verdict from LINEAR to QUADRATIC. *)
Lemma second_analyze_differs :
  let a := new_analyzer [for_line] in
  let first := analyze a in
  let second := analyze (snd first) in
  code_lines (snd first) = [for_line] /\
  map complexity (fst first) = [QUADRATIC] /\
  map complexity (fst second) = [CUBIC] /\
  estimate_overall_complexity (snd first) = LINEAR /\
  estimate_overall_complexity (snd second) = QUADRATIC.
Proof. vm_compute. repeat split. Qed.

(** C7 (amended).  Two analyses that start from analyzers holding the same
    lines, block stack, active function name, depth and maximum depth, as two
    freshly constructed analyzers over the same input do, return the same
    records and the same verdict.  A second [analyze] on one analyzer starts
    from the members the first call left. *)
Theorem same_start_same_output (a b : ComplexityAnalyzer) :
  code_lines a = code_lines b ->
  block_stack a = block_stack b ->
  current_function a = current_function b ->
  nesting_level a = nesting_level b ->
  max_nesting a = max_nesting b ->
  fst (analyze a) = fst (analyze b) /\
  estimate_overall_complexity (snd (analyze a)) =
  estimate_overall_complexity (snd (analyze b)).
Proof.
  intros Hc Hs Hf Hn Hm.
  assert (Hb : b = set_function_calls (function_calls b) a).
  { destruct a, b; simpl in *; subst; reflexivity. }
  rewrite Hb. split.
  - now rewrite analyze_registry_fst.
  - unfold estimate_overall_complexity. now rewrite analyze_registry_max.
Qed.

Lemma same_start_same_output_witness :
  let a := new_analyzer [lit "doWork();"] in
  fst (analyze (snd (analyze a))) = fst (analyze a) /\
  estimate_overall_complexity (snd (analyze (snd (analyze a)))) =
  estimate_overall_complexity (snd (analyze a)).
Proof.
  apply (same_start_same_output
           (snd (analyze (new_analyzer [lit "doWork();"])))
           (new_analyzer [lit "doWork();"])); vm_compute; reflexivity.
Defined.



(** C9.  Along the states of one run, whatever analyzer it starts from, the
    running maximum depth never decreases.  It is never negative in a run of a
    freshly constructed analyzer, nor in a run that starts from an analyzer
    whose maximum depth is not negative. *)
Theorem max_nesting_monotone (a : ComplexityAnalyzer) :
  (forall (i j : nat) (x y : ComplexityAnalyzer),
     (i <= j)%nat ->
     analyze_trace a !! i = Some x -> analyze_trace a !! j = Some y ->
     max_nesting x <= max_nesting y) /\
  (forall (code : list str) (x : ComplexityAnalyzer),
     In x (analyze_trace (new_analyzer code)) -> 0 <= max_nesting x) /\
  (0 <= max_nesting a ->
   forall x, In x (analyze_trace a) -> 0 <= max_nesting x).
Proof.
  assert (Hmono : forall (i j : nat) x y, (i <= j)%nat ->
            analyze_trace a !! i = Some x -> analyze_trace a !! j = Some y ->
            max_nesting x <= max_nesting y).
  { intros i j x y Hij Hi Hj.
    destruct (Nat.eq_dec i j) as [-> | Hne].
    - rewrite Hi in Hj. injection Hj as ->. lia.
    - apply (strongly_sorted_lookup max_le _ (max_sorted_trace a) i j); auto. lia. }
  split; [exact Hmono|]. split.
  - intros code x Hx. apply nesting_bounded_by_lines in Hx. lia.
  - intros H0 x Hx. apply list_elem_of_In, list_elem_of_lookup in Hx.
    destruct Hx as [j Hj].
    specialize (Hmono 0%nat j a x ltac:(lia) eq_refl Hj). lia.
Qed.

Lemma max_nesting_monotone_witness :
  max_nesting (before_classify for_line
                 (track_function_definitions (new_analyzer [for_line; lit "}"])))
  <= max_nesting (snd (analyze (new_analyzer [for_line; lit "}"]))) /\
  0 <= max_nesting (snd (analyze (new_analyzer [for_line; lit "}"]))).
Proof.
  destruct (max_nesting_monotone (new_analyzer [for_line; lit "}"])) as (Hm & _ & Hn).
  split.
  - apply (Hm 3%nat 7%nat); [lia | vm_compute; reflexivity | vm_compute; reflexivity].
  - apply Hn; [vm_compute; discriminate |].
    rewrite <- analyze_trace_final. unfold analyze_trace. simpl. do 7 right. left.
    reflexivity.
Defined.



(** ** Further properties of the analyzer *)

Lemma drop_space_split s :
  exists l, s = l ++ drop_space s /\ forallb is_space l = true /\
            match drop_space s with a :: _ => is_space a = false | [] => True end.
Proof.
  induction s as [|a s IH]; [exists []; repeat split|].
  destruct IH as (l & E & Hl & Hh).
  simpl. destruct (is_space a) eqn:Ha.
  - exists (a :: l). simpl. rewrite Ha, <- E. auto.
  - exists []. auto.
Qed.

Lemma drop_trailing_nil s : drop_trailing s = [] -> forallb is_space s = true.
Proof.
  destruct s as [|a s]; [reflexivity|]. cbn [drop_trailing].
  destruct (forallb is_space (a :: s)); [reflexivity | discriminate].
Qed.

Lemma drop_trailing_split s :
  exists t, s = drop_trailing s ++ t /\ forallb is_space t = true /\
            (drop_trailing s = [] \/
             exists u a, drop_trailing s = u ++ [a] /\ is_space a = false).
Proof.
  induction s as [|a s IH]; [exists []; repeat split; now left|].
  destruct IH as (t & E & Ht & Hlast).
  cbn [drop_trailing]. destruct (forallb is_space (a :: s)) eqn:Hall.
  - exists (a :: s). auto.
  - exists t. split; [simpl; now rewrite <- E|]. split; [assumption|]. right.
    destruct Hlast as [Hnil | (u & x & Hu & Hx)].
    + exists [], a. rewrite Hnil. split; [reflexivity|].
      apply drop_trailing_nil in Hnil. simpl in Hall. rewrite Hnil in Hall.
      now rewrite andb_true_r in Hall.
    + exists (a :: u), x. rewrite Hu. auto.
Qed.

(** X1.  [trim] takes white space off both ends and nothing else: the line is
    white space, then the trimmed text, then white space, and the trimmed
    text, when it is not empty, neither starts nor ends with a white-space
    character. *)
Theorem trim_takes_outer_white_space (s : str) :
  exists l t,
    s = l ++ trim s ++ t /\
    forallb is_space l = true /\ forallb is_space t = true /\
    match trim s with a :: _ => is_space a = false | [] => True end /\
    (trim s = [] \/ exists u a, trim s = u ++ [a] /\ is_space a = false).
Proof.
  rewrite trim_strip. unfold strip.
  destruct (drop_space_split s) as (l & El & Hl & Hhead).
  destruct (drop_trailing_split (drop_space s)) as (t & Et & Ht & Hlast).
  exists l, t. split; [now rewrite <- Et|]. repeat split; try assumption.
  destruct (drop_space s) as [|a r]; [exact I|].
  cbn [drop_trailing forallb]. now rewrite Hhead.
Qed.

(** X2.  A blank line or a line that starts with two slashes is classified
    CONSTANT, whatever the analyzer has seen before. *)
Theorem comment_line_constant (a : ComplexityAnalyzer) (k : nat) (raw : str) :
  code_lines a !! k = Some raw ->
  is_comment (trim raw) = true ->
  exists r, fst (analyze a) !! k = Some r /\ complexity r = CONSTANT.
Proof.
  intros Hk Hc. rewrite analyze_eq. cbn [fst].
  rewrite (records_from_lookup _ _ _ _ _ Hk).
  eexists. split; [reflexivity|]. simpl. unfold analyze_line. now rewrite Hc.
Qed.

Lemma comment_line_constant_witness :
  exists r,
    fst (analyze (new_analyzer [for_line; lit "   "; lit "  // for (;;) {"])) !! 2%nat = Some r /\
    complexity r = CONSTANT.
Proof.
  apply (comment_line_constant _ 2%nat (lit "  // for (;;) {")); vm_compute; reflexivity.
Defined.

(** X3.  While no line has matched the signature pattern, a line that is not
    a comment and not a loop opener and on which the call pattern matches,
    such as [doWork();], is classified UNKNOWN. *)
Theorem call_line_unknown (code : list str) (k : nat) (raw : str) :
  code !! k = Some raw ->
  (forall x, In x (firstn (S k) code) -> regex_search_m declaration_re (trim x) = None) ->
  is_comment (trim raw) = false ->
  regex_search loop_re (trim raw) = false ->
  regex_search call_re (trim raw) = true ->
  exists r, fst (analyze (new_analyzer code)) !! k = Some r /\ complexity r = UNKNOWN.
Proof.
  intros Hk Hnone Hc Hl Hcall. rewrite analyze_eq. cbn [fst code_lines new_analyzer].
  rewrite (records_from_lookup _ _ _ _ _ Hk).
  eexists. split; [reflexivity|]. simpl. unfold analyze_line. rewrite Hc, Hl, Hcall.
  rewrite current_function_before_classify.
  rewrite (Hnone raw).
  - rewrite current_function_kept; [reflexivity|].
    intros x Hx. apply Hnone. rewrite (take_S_r _ _ _ Hk).
    apply in_or_app. now left.
  - rewrite (take_S_r _ _ _ Hk). apply in_or_app. right. now left.
Qed.

Lemma call_line_unknown_witness :
  exists r,
    fst (analyze (new_analyzer [lit "int x = 0;"; lit "doWork();"])) !! 1%nat = Some r /\
    complexity r = UNKNOWN.
Proof.
  apply (call_line_unknown _ 1%nat (lit "doWork();")); try (vm_compute; reflexivity).
  intros x [<- | [<- | []]]; vm_compute; reflexivity.
Defined.

(** X4.  In a run of a freshly constructed analyzer the current depth lies
    between 0 and the maximum depth, and the maximum depth is at most the
    number of input lines: for fewer than 2^31 lines neither counter leaves
    the range of [int]. *)
Theorem counters_within_int_range (code : list str) (b : ComplexityAnalyzer) :
  Z.of_nat (length code) < 2 ^ 31 ->
  In b (analyze_trace (new_analyzer code)) ->
  0 <= nesting_level b <= max_nesting b /\
  max_nesting b <= Z.of_nat (length code) /\ max_nesting b < 2 ^ 31.
Proof.
  intros Hlen Hb. apply nesting_bounded_by_lines in Hb. lia.
Qed.

Lemma counters_within_int_range_witness :
  0 <= nesting_level (snd (analyze (new_analyzer [for_line; for_line])))
    <= max_nesting (snd (analyze (new_analyzer [for_line; for_line]))) /\
  max_nesting (snd (analyze (new_analyzer [for_line; for_line]))) <= 2 /\
  max_nesting (snd (analyze (new_analyzer [for_line; for_line]))) < 2 ^ 31.
Proof.
  apply (counters_within_int_range [for_line; for_line]); [vm_compute; reflexivity|].
  rewrite <- analyze_trace_final. unfold analyze_trace. simpl.
  do 7 right. left. reflexivity.
Defined.

(** ** Trimming and comments *)

Lemma drop_space_all s : forallb is_space s = true -> drop_space s = [].
Proof.
  induction s as [|a s IH]; [reflexivity|]. simpl.
  intros H. apply andb_prop in H. destruct H as [-> H]. now apply IH.
Qed.

Lemma drop_space_app l x r :
  forallb is_space l = true -> is_space x = false ->
  drop_space (l ++ x :: r) = x :: r.
Proof.
  induction l as [|a l IH]; simpl; intros Hl Hx.
  - now rewrite Hx.
  - apply andb_prop in Hl. destruct Hl as [-> Hl]. now apply IH.
Qed.

Lemma drop_space_head a s : is_space a = false -> drop_space (a :: s) = a :: s.
Proof. intros H. simpl. now rewrite H. Qed.

Lemma forallb_space_last u a : is_space a = false -> forallb is_space (u ++ [a]) = false.
Proof.
  intros Ha. rewrite forallb_app. simpl. rewrite Ha. now rewrite andb_false_r.
Qed.

Lemma drop_trailing_last u a :
  is_space a = false -> drop_trailing (u ++ [a]) = u ++ [a].
Proof.
  intros Ha. induction u as [|x u IH].
  - simpl. now rewrite Ha.
  - change ((x :: u) ++ [a]) with (x :: (u ++ [a])). cbn [drop_trailing].
    change (x :: (u ++ [a])) with ((x :: u) ++ [a]) at 1.
    rewrite forallb_space_last by assumption. now rewrite IH.
Qed.

Lemma strip_fixed t :
  match t with a :: _ => is_space a = false | [] => True end ->
  (t = [] \/ exists u a, t = u ++ [a] /\ is_space a = false) ->
  strip t = t.
Proof.
  intros Hhead Hlast. unfold strip.
  destruct Hlast as [-> | (u & z & Et & Hz)]; [reflexivity|].
  destruct t as [|a t']; [reflexivity|].
  rewrite drop_space_head by assumption. rewrite Et. now apply drop_trailing_last.
Qed.

Lemma strip_shape s :
  match strip s with a :: _ => is_space a = false | [] => True end /\
  (strip s = [] \/ exists u a, strip s = u ++ [a] /\ is_space a = false).
Proof.
  unfold strip.
  destruct (drop_space_split s) as (l & El & Hl & Hhead).
  destruct (drop_trailing_split (drop_space s)) as (t & Et & Ht & Hlast).
  split; [| assumption].
  destruct (drop_space s) as [|a r]; [exact I|].
  cbn [drop_trailing forallb]. now rewrite Hhead.
Qed.

Lemma ends_shape (t : str) :
  (forall z, last t = Some z -> is_space z = false) <->
  (t = [] \/ exists u z, t = u ++ [z] /\ is_space z = false).
Proof.
  split.
  - intros H. destruct t as [|a t']; [now left | right].
    destruct (exists_last (l := a :: t') ltac:(discriminate)) as (u & z & E).
    exists u, z. split; [assumption|]. apply H. rewrite E. apply last_snoc.
  - intros [-> | (u & x & -> & Hx)] z Hz; [discriminate Hz|].
    rewrite last_snoc in Hz. now injection Hz as <-.
Qed.

Lemma starts_shape (t : str) :
  (forall a, head t = Some a -> is_space a = false) <->
  match t with a :: _ => is_space a = false | [] => True end.
Proof.
  destruct t as [|a t']; simpl; split; auto.
  - intros _ a H. discriminate H.
  - intros H x [= <-]. exact H.
Qed.

(** X5.  Trimming twice is trimming once, a line of white space only trims
    to the empty text, and [trim] leaves a line as it is exactly when the
    line neither starts nor ends with a white-space character; this holds for
    the empty line and for a line of one character such as a closing brace. *)
Theorem trim_idempotent (s : str) :
  trim (trim s) = trim s /\
  (forallb is_space s = true -> trim s = []) /\
  (trim s = s <->
   (forall a, head s = Some a -> is_space a = false) /\
   (forall z, last s = Some z -> is_space z = false)).
Proof.
  rewrite !trim_strip. split; [| split].
  - destruct (strip_shape s) as [Hh Hl]. now apply strip_fixed.
  - intros Hall. unfold strip. now rewrite drop_space_all.
  - rewrite starts_shape, ends_shape. split.
    + intros E. rewrite <- E. apply strip_shape.
    + intros [Hh Hl]. now apply strip_fixed.
Qed.

Lemma trim_idempotent_witness :
  trim (lit "   ") = [] /\ trim (lit "}") = lit "}" /\ trim (lit "x = 1;") = lit "x = 1;".
Proof.
  split; [| split].
  - destruct (trim_idempotent (lit "   ")) as (_ & H & _). apply H. reflexivity.
  - destruct (trim_idempotent (lit "}")) as (_ & _ & H). apply H.
    split; intros c [= <-]; reflexivity.
  - destruct (trim_idempotent (lit "x = 1;")) as (_ & _ & H). apply H.
    split; intros c [= <-]; reflexivity.
Defined.

Lemma drop_trailing_prefix2 a b d t :
  drop_trailing d = a :: b :: t -> exists d', d = a :: b :: d'.
Proof.
  intros H. destruct (drop_trailing_split d) as (tl & E & _ & _).
  rewrite H in E. exists (t ++ tl). exact E.
Qed.

Lemma slash_not_space : is_space "/" = false.
Proof. reflexivity. Qed.

(** X6.  A line counts as a comment exactly when it holds white space only or
    when its first characters after leading white space are two slashes.
    Nothing else is a comment: not a block comment, not a comment behind
    code. *)
Theorem comment_lines (raw : str) :
  is_comment (trim raw) = true <->
  forallb is_space raw = true \/
  exists l r, raw = l ++ "/"%char :: "/"%char :: r /\ forallb is_space l = true.
Proof.
  rewrite trim_strip. unfold strip.
  destruct (drop_space_split raw) as (l & El & Hl & Hhead). split.
  - unfold is_comment.
    destruct (drop_trailing (drop_space raw)) as [|a t] eqn:Et.
    + intros _. left. apply drop_trailing_nil in Et.
      rewrite El, forallb_app, Hl, Et. reflexivity.
    + intros H. apply bool_decide_eq_true_1 in H. right.
      destruct t as [|b t]; [discriminate H|]. simpl in H. injection H as -> ->.
      apply drop_trailing_prefix2 in Et. destruct Et as (d' & Ed).
      exists l, d'. split; [congruence | assumption].
  - intros [Hall | (l' & r & -> & Hl')].
    + now rewrite drop_space_all.
    + rewrite drop_space_app by (auto using slash_not_space).
      cbn [drop_trailing forallb]. rewrite slash_not_space. cbn [andb].
      reflexivity.
Qed.

(** ** What the patterns find *)

Lemma matches_Lit_inv f :
  forall st st', matches (Lit f) st st' -> rest st = f ++ rest st'.
Proof.
  induction f as [|a f IH]; intros st st' HM; simpl in HM.
  - inversion HM; subst. reflexivity.
  - apply matches_Seq_inv in HM. destruct HM as (st1 & Hc & Hf).
    apply matches_Chr_inv in Hc. destruct Hc as (x & s & Es & Hx & ->).
    apply Ascii.eqb_eq in Hx. subst x. apply IH in Hf. simpl in Hf.
    rewrite Es, Hf. reflexivity.
Qed.

Lemma forallb_Forall_space w :
  Forall (fun a => is_space a = true) w <-> forallb is_space w = true.
Proof. rewrite forallb_forall, List.Forall_forall. reflexivity. Qed.

Lemma matches_ws_star st st' :
  matches (Star ws) st st' ->
  exists sp, rest st = sp ++ rest st' /\ forallb is_space sp = true.
Proof.
  intros H. apply matches_star_class in H. destruct H as (w & E & F).
  exists w. split; [assumption | now apply forallb_Forall_space].
Qed.

Lemma matches_paren st st' :
  matches (Chr (is_char "(")) st st' -> exists post, rest st = "("%char :: post.
Proof.
  intros H. apply matches_Chr_inv in H. destruct H as (a & s & E & Ha & _).
  apply Ascii.eqb_eq in Ha. subst a. eauto.
Qed.

Lemma boundary_before_word st a s :
  rest st = a :: s -> is_word a = true -> word_boundary st = true ->
  word_before st = false.
Proof.
  unfold word_boundary, word_after. intros -> -> H.
  now destruct (word_before st).
Qed.

Lemma word_before_ends_in_word w s k :
  word_before (MState (prev_after None w) s k) = ends_in_word w.
Proof. reflexivity. Qed.

(** X7.  For a function name that is an identifier, the recursion test
    answers true exactly when the line contains the name at a place where no
    word character stands before it, followed by any amount of white space and
    an opening parenthesis. *)
Theorem is_recursive_finds_name (line f : str) :
  identifier f ->
  (is_recursive line f = true <->
   exists pre sp post,
     line = pre ++ f ++ sp ++ "("%char :: post /\
     ends_in_word pre = false /\ forallb is_space sp = true).
Proof.
  intros Hid. destruct f as [|a f']; [destruct Hid|].
  assert (Ha : is_word a = true) by (destruct Hid; now apply ident_start_word).
  unfold is_recursive, regex_search, regex_search_m. split.
  - destruct (search_from (recursive_re (a :: f')) None line []) as [m|] eqn:Hs;
      [intros _ | discriminate].
    apply search_from_sound in Hs. destruct Hs as (w & Eline & Est & _ & HM).
    apply matches_Seq_inv in HM. destruct HM as (st0 & Hb & HM).
    apply matches_WordB_inv in Hb. destruct Hb as [-> Hb].
    apply matches_Seq_inv in HM. destruct HM as (st1 & Hf & HM).
    apply matches_Seq_inv in HM. destruct HM as (st2 & Hw & Hp).
    apply matches_Lit_inv in Hf. apply matches_ws_star in Hw.
    destruct Hw as (sp & Esp & Hsp). apply matches_paren in Hp.
    destruct Hp as (post & Epost).
    exists w, sp, post. split; [| split; [| assumption]].
    + rewrite Eline, Hf, Esp, Epost. reflexivity.
    + rewrite <- (word_before_ends_in_word w (rest (m_start m)) []), <- Est.
      eapply boundary_before_word; eauto.
  - intros (pre & sp & post & -> & Hpre & Hsp).
    destruct (search_from_complete (recursive_re (a :: f')) pre None
                ((a :: f') ++ sp ++ "("%char :: post) []
                (MState (Some "("%char) post [])) as [m ->]; [| reflexivity].
    unfold recursive_re. econstructor.
    { constructor. unfold word_boundary, word_after, word_before in *.
      unfold ends_in_word in Hpre. simpl in *. now rewrite Hpre, Ha. }
    econstructor; [apply matches_Lit|].
    econstructor; [apply matches_star_all; now apply forallb_Forall_space|].
    now constructor.
Qed.

Lemma is_recursive_finds_name_witness :
  is_recursive (lit "return fib (n-1);") (lit "fib") = true.
Proof.
  apply (is_recursive_finds_name (lit "return fib (n-1);") (lit "fib")).
  - repeat constructor.
  - exists (lit "return "), (lit " "), (lit "n-1);"). repeat split.
Defined.

Lemma matches_Group_intro n r st st' w :
  matches r st st' -> rest st = w ++ rest st' ->
  matches (Group n r) st (set_cap n w st').
Proof.
  intros HM E. rewrite <- (consumed_app st st' w E). now constructor.
Qed.

(** X8.  The loop test answers true exactly when the line contains [for] or
    [while] at a place where no word character stands before it, followed by
    any amount of white space and an opening parenthesis. *)
Theorem loop_opener_found (line : str) :
  regex_search loop_re line = true <->
  exists pre kw sp post,
    line = pre ++ kw ++ sp ++ "("%char :: post /\
    (kw = lit "for" \/ kw = lit "while") /\
    ends_in_word pre = false /\ forallb is_space sp = true.
Proof.
  unfold regex_search, regex_search_m. split.
  - destruct (search_from loop_re None line []) as [m|] eqn:Hs;
      [intros _ | discriminate].
    apply search_from_sound in Hs. destruct Hs as (w & Eline & Est & _ & HM).
    apply matches_Seq_inv in HM. destruct HM as (st0 & Hb & HM).
    apply matches_WordB_inv in Hb. destruct Hb as [-> Hb].
    apply matches_Seq_inv in HM. destruct HM as (sg & Hg & HM).
    apply matches_Group_inv in Hg. destruct Hg as (st1 & Hkw & ->).
    apply matches_Seq_inv in HM. destruct HM as (st2 & Hw & Hp).
    apply matches_ws_star in Hw. destruct Hw as (sp & Esp & Hsp).
    apply matches_paren in Hp. destruct Hp as (post & Epost).
    simpl in Esp.
    apply matches_Alt_inv in Hkw.
    destruct Hkw as [Hkw | Hkw]; apply matches_Lit_inv in Hkw;
      [exists w, (lit "for"), sp, post | exists w, (lit "while"), sp, post];
      (split; [rewrite Eline, Hkw, Esp, Epost; reflexivity|]);
      (split; [auto|]); (split; [| assumption]);
      rewrite <- (word_before_ends_in_word w (rest (m_start m)) []), <- Est;
      (eapply boundary_before_word; [exact Hkw | reflexivity | exact Hb]).
  - intros (pre & kw & sp & post & -> & Hkw & Hpre & Hsp).
    destruct (search_from_complete loop_re pre None
                (kw ++ sp ++ "("%char :: post) []
                (MState (Some "("%char) post [(1%nat, kw)])) as [m ->]; [| reflexivity].
    unfold loop_re.
    apply M_Seq with (st1 := MState (prev_after None pre) (kw ++ sp ++ "("%char :: post) []).
    { constructor. unfold word_boundary, word_after, word_before.
      unfold ends_in_word in Hpre. simpl. rewrite Hpre.
      destruct Hkw as [-> | ->]; reflexivity. }
    apply M_Seq with
      (st1 := set_cap 1 kw (MState (prev_after (prev_after None pre) kw)
                              (sp ++ "("%char :: post) [])).
    { apply matches_Group_intro; [| reflexivity].
      destruct Hkw as [-> | ->]; [apply M_AltL | apply M_AltR]; apply matches_Lit. }
    unfold set_cap. cbn [prev rest caps].
    econstructor; [apply matches_star_all; now apply forallb_Forall_space|].
    now constructor.
Qed.

Lemma matches_Eps_inv st st' : matches Eps st st' -> st' = st.
Proof. inversion 1; subst; reflexivity. Qed.

Lemma matches_class_star p st st' :
  matches (Star (Chr p)) st st' ->
  exists w, rest st = w ++ rest st' /\ forallb p w = true.
Proof.
  intros H. apply matches_star_class in H. destruct H as (w & E & F).
  exists w. split; [assumption|]. apply forallb_forall.
  rewrite List.Forall_forall in F. exact F.
Qed.

Lemma matches_class_star_intro p w o s k :
  forallb p w = true ->
  matches (Star (Chr p)) (MState o (w ++ s) k) (MState (prev_after o w) s k).
Proof.
  intros H. apply matches_star_all. apply List.Forall_forall.
  now apply forallb_forall.
Qed.

Lemma matches_ident_intro f o s k :
  identifier f ->
  matches ident_re (MState o (f ++ s) k) (MState (prev_after o f) s k).
Proof.
  destruct f as [|a f']; [intros [] | intros [Ha Hf]].
  unfold ident_re. apply M_Seq with (st1 := MState (Some a) (f' ++ s) k).
  - now constructor.
  - apply (matches_class_star_intro ident_char f' (Some a) s k).
    apply forallb_forall. rewrite List.Forall_forall in Hf. exact Hf.
Qed.

Lemma matches_Chr_rest p st st' :
  matches (Chr p) st st' -> exists a, rest st = a :: rest st' /\ p a = true.
Proof.
  intros H. apply matches_Chr_inv in H. destruct H as (a & s & E & Ha & ->).
  exists a. auto.
Qed.

Lemma matches_char_rest c st st' :
  matches (Chr (is_char c)) st st' -> rest st = c :: rest st'.
Proof.
  intros H. apply matches_Chr_rest in H. destruct H as (a & E & Ha).
  apply Ascii.eqb_eq in Ha. now subst a.
Qed.

Lemma matches_Opt_Lit k st st' :
  matches (Opt (Lit k)) st st' ->
  exists k', rest st = k' ++ rest st' /\ (k' = [] \/ k' = k).
Proof.
  intros H. apply matches_Alt_inv in H. destruct H as [H | H].
  - apply matches_Lit_inv in H. exists k. auto.
  - apply matches_Eps_inv in H. subst st'. exists []. auto.
Qed.

Lemma one_of_In cs a : one_of cs a = true -> In a cs.
Proof.
  unfold one_of. rewrite existsb_exists. intros (x & Hx & E).
  apply Ascii.eqb_eq in E. now subst x.
Qed.

Lemma In_one_of cs a : In a cs -> one_of cs a = true.
Proof.
  intros H. unfold one_of. apply existsb_exists. exists a.
  split; [assumption | apply Ascii.eqb_refl].
Qed.

Lemma signature_match_shape closers line m :
  regex_search_m (signature_re closers) line = Some m ->
  signature_at closers line (m_sub 1 m).
Proof.
  intros Hs. destruct (signature_match _ _ _ Hs) as [Hid _].
  apply search_from_sound in Hs. destruct Hs as (w & Eline & Est & _ & HM).
  destruct m as [pre0 st0 st_end]. cbn [m_start m_end] in *.
  unfold signature_re in HM.
  apply matches_Seq_inv in HM. destruct HM as (st0' & Hb & HM).
  apply matches_WordB_inv in Hb. destruct Hb as [-> Hb].
  apply matches_Seq_inv in HM. destruct HM as (sg & Hg & Htail).
  apply matches_Group_inv in Hg. destruct Hg as (st1 & Hident & ->).
  assert (Hcaps : caps st_end = (1%nat, consumed st0 st1) :: caps st1).
  { apply matches_no_groups in Htail; [| reflexivity]. apply Htail. }
  unfold m_sub in *. cbn [m_end] in *. rewrite Hcaps in *. cbn [sub_match Nat.eqb] in *.
  destruct (matches_reads _ _ _ Hident) as (f & Ef & _).
  rewrite (consumed_app _ _ f Ef) in *.
  apply matches_Seq_inv in Htail. destruct Htail as (st2 & Hsp & Htail).
  apply matches_ws_star in Hsp. destruct Hsp as (sp & Esp & Hsp). cbn [set_cap rest] in Esp.
  apply matches_Seq_inv in Htail. destruct Htail as (st6 & Hpar & Htail).
  unfold params_re in Hpar.
  apply matches_Seq_inv in Hpar. destruct Hpar as (st3 & Hopen & Hpar).
  apply matches_char_rest in Hopen.
  apply matches_Seq_inv in Hpar. destruct Hpar as (st4 & Hargs & Hpar).
  apply matches_class_star in Hargs. destruct Hargs as (args & Eargs & Hargs).
  apply matches_Seq_inv in Hpar. destruct Hpar as (st5 & Hclose & Hw1).
  apply matches_char_rest in Hclose.
  apply matches_ws_star in Hw1. destruct Hw1 as (w1 & Ew1 & Hw1).
  apply matches_Seq_inv in Htail. destruct Htail as (st7 & Hk & Htail).
  apply matches_Opt_Lit in Hk. destruct Hk as (k & Ek & Hk).
  apply matches_Seq_inv in Htail. destruct Htail as (st8 & Hw2 & Hc).
  apply matches_ws_star in Hw2. destruct Hw2 as (w2 & Ew2 & Hw2).
  apply matches_Chr_rest in Hc. destruct Hc as (c & Ec & Hc).
  exists w, sp, args, w1, k, w2, c, (rest st_end).
  split.
  { rewrite Eline, Ef, Esp, Hopen, Eargs, Hclose, Ew1, Ek, Ew2, Ec. reflexivity. }
  split; [assumption|]. split.
  { rewrite <- (word_before_ends_in_word w (rest st0) []), <- Est.
    destruct f as [|a f']; [destruct Hid|]. destruct Hid as [Ha _].
    eapply boundary_before_word; [exact Ef | now apply ident_start_word | exact Hb]. }
  repeat (split; [assumption|]). now apply one_of_In.
Qed.

Lemma signature_shape_match closers line f :
  signature_at closers line f -> regex_search (signature_re closers) line = true.
Proof.
  intros (pre & sp & args & w1 & k & w2 & c & post &
          -> & Hid & Hpre & Hsp & Hargs & Hw1 & Hk & Hw2 & Hc).
  apply (regex_search_intro _ pre _ (MState (Some c) post [(1%nat, f)])).
  unfold signature_re.
  apply M_Seq with (st1 := MState (prev_after None pre)
     (f ++ sp ++ "("%char :: args ++ ")"%char :: w1 ++ k ++ w2 ++ c :: post) []).
  { constructor. unfold word_boundary, word_after, word_before.
    unfold ends_in_word in Hpre. cbn [prev rest]. rewrite Hpre.
    destruct f as [|a f']; [destruct Hid|]. destruct Hid as [Ha _].
    cbn [app]. now rewrite (ident_start_word _ Ha). }
  eapply M_Seq.
  { apply matches_Group_intro with (w := f); [now apply matches_ident_intro | reflexivity]. }
  unfold set_cap. cbn [prev rest caps].
  eapply M_Seq; [now apply matches_class_star_intro|].
  eapply M_Seq.
  { unfold params_re. eapply M_Seq; [constructor; reflexivity|].
    eapply M_Seq; [now apply matches_class_star_intro|].
    eapply M_Seq; [constructor; reflexivity|].
    now apply matches_class_star_intro. }
  apply M_Seq with (st1 := MState (prev_after (prev_after (Some ")"%char) w1) k)
                                  (w2 ++ c :: post) [(1%nat, f)]).
  { destruct Hk as [-> | ->]; [apply M_AltR; apply M_Eps | apply M_AltL; apply matches_Lit]. }
  eapply M_Seq; [now apply matches_class_star_intro|].
  constructor. now apply In_one_of.
Qed.

Lemma contains_app c x y : contains c (x ++ y) = contains c x || contains c y.
Proof. apply existsb_app. Qed.

Lemma contains_In c x : contains c x = true <-> In c x.
Proof.
  unfold contains. rewrite existsb_exists. split.
  - intros (a & Ha & E). apply Ascii.eqb_eq in E. now subst a.
  - intros H. exists c. split; [assumption | apply Ascii.eqb_refl].
Qed.

(** X9.  The signature test of lines 72 and 153 answers true exactly when the
    line holds the head of a signature: an identifier that no word character
    precedes, white space, a parenthesised text free of closing parentheses,
    white space, maybe [const], white space, and a closing character (an
    opening brace, and for line 72 also a semicolon).  The name it extracts
    heads such a signature.  The identifier may be any word: [if (x) {] and
    [while (x) {] count as signatures. *)
Theorem signature_found (closers line : str) :
  (regex_search (signature_re closers) line = true <->
   exists f, signature_at closers line f) /\
  (forall m, regex_search_m (signature_re closers) line = Some m ->
             signature_at closers line (m_sub 1 m)).
Proof.
  split; [split |].
  - unfold regex_search.
    destruct (regex_search_m (signature_re closers) line) as [m|] eqn:Hm; [| discriminate].
    intros _. exists (m_sub 1 m). now apply signature_match_shape.
  - intros [f Hf]. eapply signature_shape_match; eauto.
  - apply signature_match_shape.
Qed.

Lemma signature_found_witness :
  signature_at (lit "{") (lit "if (x > 0) {") (lit "if").
Proof.
  destruct (regex_search_m (signature_re (lit "{")) (lit "if (x > 0) {")) as [m|] eqn:Hm;
    [| vm_compute in Hm; discriminate Hm].
  destruct (signature_found (lit "{") (lit "if (x > 0) {")) as [_ H].
  specialize (H m Hm). vm_compute in Hm. injection Hm as <-. exact H.
Defined.

(** X10.  A line that sets the active function name contains an opening
    brace, so it always pushes a frame as well: the block stack is one frame
    higher in the state in which the line is classified. *)
Theorem declaration_line_pushes_frame
  (a : ComplexityAnalyzer) (raw : str) (m : match_results) :
  regex_search_m declaration_re (trim raw) = Some m ->
  contains "{" (trim raw) = true /\
  exists frame,
    block_stack (before_classify raw a) = frame :: block_stack a /\
    (frame = "loop"%string \/ frame = "block"%string).
Proof.
  intros Hm.
  assert (Hbrace : contains "{" (trim raw) = true).
  { apply signature_match_shape in Hm.
    destruct Hm as (pre & sp & args & w1 & k & w2 & c & post & E & _ & _ & _ & _ & _ & _ & _ & Hc).
    destruct Hc as [<- | []]. apply contains_In. rewrite E.
    do 3 (apply in_or_app; right). right. apply in_or_app; right. right.
    do 3 (apply in_or_app; right). now left. }
  split; [assumption|].
  unfold before_classify, track_opening. rewrite Hbrace.
  destruct (track_declaration_fields (trim raw) a) as (_ & _ & Hs & _).
  destruct (regex_search loop_re (trim raw)); cbn [block_stack set_blocks]; rewrite Hs; eauto.
Qed.

Lemma declaration_line_pushes_frame_witness :
  exists frame,
    block_stack (before_classify fib_line (new_analyzer [fib_line])) =
    frame :: block_stack (new_analyzer [fib_line]) /\
    (frame = "loop"%string \/ frame = "block"%string).
Proof.
  destruct (regex_search_m declaration_re (trim fib_line)) as [m|] eqn:Hm;
    [| vm_compute in Hm; discriminate Hm].
  apply (declaration_line_pushes_frame (new_analyzer [fib_line]) fib_line m Hm).
Defined.




(** ** The registry of the pre-pass *)









(** ** Blocks, line by line *)

Lemma opens_false line :
  opens line = false -> regex_search loop_re line = false /\ contains "{" line = false.
Proof. unfold opens. apply orb_false_elim. Qed.

Lemma after_line_plain raw a :
  opens (trim raw) = false -> closes (trim raw) = false ->
  blocks (after_line raw a) = blocks a.
Proof.
  intros Ho Hc. apply opens_false in Ho. destruct Ho as [Hl Hb].
  unfold after_line, before_classify, track_closing, track_opening, closes in *.
  rewrite Hl, Hb, Hc. apply blocks_declaration.
Qed.

Lemma after_line_open raw a :
  opens (trim raw) = true -> closes (trim raw) = false ->
  exists frame,
    block_stack (after_line raw a) = frame :: block_stack a /\
    nesting_level (after_line raw a) =
      nesting_level a + (if String.eqb frame "loop" then 1 else 0).
Proof.
  intros Ho Hc. unfold after_line, before_classify, track_closing, closes in *.
  rewrite Hc. unfold track_opening.
  destruct (track_declaration_fields (trim raw) a) as (_ & _ & Hs & Hn & _).
  unfold opens in Ho.
  destruct (regex_search loop_re (trim raw)).
  - exists "loop"%string. cbn [block_stack nesting_level set_blocks String.eqb Ascii.eqb Bool.eqb].
    now rewrite Hs, Hn.
  - simpl in Ho. rewrite Ho. exists "block"%string.
    cbn [block_stack nesting_level set_blocks]. rewrite Hs, Hn.
    split; [reflexivity | simpl; lia].
Qed.

Lemma after_line_close raw a frame below :
  opens (trim raw) = false -> closes (trim raw) = true ->
  block_stack a = frame :: below ->
  block_stack (after_line raw a) = below /\
  nesting_level (after_line raw a) =
    nesting_level a - (if String.eqb frame "loop" then 1 else 0).
Proof.
  intros Ho Hc Hst. apply opens_false in Ho. destruct Ho as [Hl Hb].
  unfold after_line, before_classify, track_closing, track_opening, closes in *.
  rewrite Hl, Hb, Hc.
  destruct (track_declaration_fields (trim raw) a) as (_ & _ & Hs & Hn & _).
  rewrite Hs, Hst. cbn [block_stack nesting_level set_blocks]. rewrite Hn.
  split; [reflexivity|]. destruct (String.eqb frame "loop"); lia.
Qed.

Lemma after_line_inline raw a :
  opens (trim raw) = true -> closes (trim raw) = true ->
  block_stack (after_line raw a) = block_stack a /\
  nesting_level (after_line raw a) = nesting_level a.
Proof.
  intros Ho Hc. unfold after_line, before_classify, track_closing, closes in *.
  rewrite Hc. unfold track_opening.
  destruct (track_declaration_fields (trim raw) a) as (_ & _ & Hs & Hn & _).
  unfold opens in Ho.
  destruct (regex_search loop_re (trim raw)).
  - cbn [block_stack nesting_level set_blocks]. rewrite Hs, Hn. simpl. split; [reflexivity | lia].
  - simpl in Ho. rewrite Ho. cbn [block_stack nesting_level set_blocks].
    rewrite Hs, Hn. simpl. split; reflexivity.
Qed.

Lemma after_lines_cons raw lines a :
  after_lines (raw :: lines) a = after_lines lines (after_line raw a).
Proof. reflexivity. Qed.

(** X14.  Lines whose pushes and pops pair up leave the block stack and the
    current depth as they found them, whatever the analyzer held before (the
    maximum depth may have grown). *)
Theorem balanced_lines_restore_depth (lines : list str) (a : ComplexityAnalyzer) :
  balanced lines ->
  block_stack (after_lines lines a) = block_stack a /\
  nesting_level (after_lines lines a) = nesting_level a.
Proof.
  intros Hbal. revert a.
  induction Hbal as [| raw ls Ho Hc _ IH | raw ls Ho Hc _ IH
                     | o body c ls Ho1 Hc1 _ IHbody Ho2 Hc2 _ IHls]; intros a.
  - split; reflexivity.
  - rewrite after_lines_cons. destruct (IH (after_line raw a)) as [-> ->].
    pose proof (after_line_plain raw a Ho Hc) as H. unfold blocks in H.
    split; congruence.
  - rewrite after_lines_cons. destruct (IH (after_line raw a)) as [-> ->].
    now apply after_line_inline.
  - rewrite after_lines_cons, after_lines_app, after_lines_cons.
    destruct (after_line_open o a Ho1 Hc1) as (frame & Hs & Hn).
    destruct (IHbody (after_line o a)) as [Hs' Hn'].
    rewrite Hs in Hs'. rewrite Hn in Hn'.
    destruct (after_line_close c _ frame (block_stack a) Ho2 Hc2 Hs') as [Hs'' Hn''].
    destruct (IHls (after_line c (after_lines body (after_line o a)))) as [-> ->].
    split; [assumption|]. rewrite Hn'', Hn'. lia.
Qed.

Lemma balanced_lines_witness :
  nesting_level (after_lines [for_line; lit "  x++;"; lit "}"] (new_analyzer [])) = 0.
Proof.
  apply (balanced_lines_restore_depth [for_line; lit "  x++;"; lit "}"] (new_analyzer [])).
  apply (balanced_block for_line [lit "  x++;"] (lit "}") []);
    try (vm_compute; reflexivity).
  - apply balanced_plain; [vm_compute; reflexivity | vm_compute; reflexivity | constructor].
  - constructor.
Defined.

Lemma one_frame_bounds raw a :
  nesting_level (after_line raw a) <= nesting_level a + 1 /\
  max_nesting (after_line raw a) <= Z.max (max_nesting a) (nesting_level a + 1) /\
  (regex_search loop_re (trim raw) = false ->
   nesting_level (after_line raw a) <= nesting_level a).
Proof.
  unfold after_line, before_classify, track_closing, track_opening.
  destruct (track_declaration_fields (trim raw) a) as (_ & _ & Hs & Hn & Hm).
  destruct (regex_search loop_re (trim raw)); [| destruct (contains "{" (trim raw))];
    destruct (contains "}" (trim raw));
    cbn [block_stack nesting_level max_nesting set_blocks];
    try rewrite Hs; try rewrite Hn; try rewrite Hm;
    try (destruct (block_stack a) as [|top below]);
    cbn [block_stack nesting_level max_nesting set_blocks];
    try rewrite Hs; try rewrite Hn; try rewrite Hm;
    try (destruct (String.eqb top "loop"));
    cbn [String.eqb Ascii.eqb Bool.eqb]; repeat split; try discriminate; lia.
Qed.


(** ** The maximum depth and the verdict *)

Lemma depth_ok_after_line raw a : depth_ok a -> depth_ok (after_line raw a).
Proof.
  intros H. unfold after_line, before_classify.
  now apply depth_ok_closing, depth_ok_opening, depth_ok_declaration.
Qed.

Lemma depth_ok_after_lines lines :
  forall a, depth_ok a -> depth_ok (after_lines lines a).
Proof.
  induction lines as [|raw lines IH]; intros a Ha; [assumption|].
  rewrite after_lines_cons. now apply IH, depth_ok_after_line.
Qed.

Lemma max_after_line raw a :
  max_nesting (after_line raw a) = max_nesting (before_classify raw a) /\
  (max_nesting (before_classify raw a) = max_nesting a \/
   max_nesting (before_classify raw a) = nesting_level (before_classify raw a)) /\
  max_nesting a <= max_nesting (after_line raw a) /\
  (regex_search loop_re (trim raw) = true ->
   nesting_level a + 1 <= max_nesting (after_line raw a)) /\
  (regex_search loop_re (trim raw) = false ->
   max_nesting (after_line raw a) = max_nesting a).
Proof.
  unfold after_line.
  destruct (track_closing_fields (trim raw) (before_classify raw a)) as (_ & _ & _ & ->).
  unfold before_classify, track_opening.
  destruct (track_declaration_fields (trim raw) a) as (_ & _ & _ & Hn & Hm).
  destruct (regex_search loop_re (trim raw)); [| destruct (contains "{" (trim raw))];
    cbn [max_nesting nesting_level set_blocks]; rewrite ?Hn, ?Hm;
    repeat split; try lia; try discriminate; auto.
Qed.

Lemma max_after_lines_le lines :
  forall a, max_nesting a <= max_nesting (after_lines lines a).
Proof.
  induction lines as [|raw lines IH]; intros a; [simpl; lia|].
  rewrite after_lines_cons. specialize (IH (after_line raw a)).
  destruct (max_after_line raw a) as (_ & _ & H & _). lia.
Qed.

Lemma max_attained_loop lines :
  forall a,
  max_nesting (after_lines lines a) = max_nesting a \/
  exists b, In b (trace_loop lines a) /\
            nesting_level b = max_nesting (after_lines lines a).
Proof.
  induction lines as [|raw lines IH]; intros a; [now left|].
  rewrite after_lines_cons. cbn [trace_loop].
  destruct (IH (after_line raw a)) as [E | (b & Hb & E)].
  - rewrite E. destruct (max_after_line raw a) as (-> & [H | H] & _); [now left|].
    right. exists (before_classify raw a). split; [right; now left | now symmetry].
  - right. exists b. split; [do 3 right; assumption | assumption].
Qed.

(** X16.  The maximum depth that a run of a freshly constructed analyzer
    leaves behind is the current depth of one of the states the run went
    through: the verdict rests on a depth that was really reached. *)
Theorem max_depth_attained (code : list str) :
  exists b,
    In b (analyze_trace (new_analyzer code)) /\
    nesting_level b = max_nesting (snd (analyze (new_analyzer code))).
Proof.
  rewrite analyze_eq. cbn [snd code_lines new_analyzer].
  destruct (max_attained_loop code (track_function_definitions (new_analyzer code)))
    as [E | (b & Hb & E)].
  - exists (new_analyzer code). split; [now left|]. rewrite E. reflexivity.
  - exists b. split; [do 2 right; assumption | assumption].
Qed.

Lemma loop_lines_cons raw lines :
  loop_lines (raw :: lines) =
  ((if regex_search loop_re (trim raw) then 1 else 0) + loop_lines lines)%nat.
Proof.
  unfold loop_lines. cbn [List.filter].
  now destruct (regex_search loop_re (trim raw)).
Qed.

Lemma max_bounded_by_loop_lines lines :
  forall a,
  nesting_level (after_lines lines a) <= nesting_level a + Z.of_nat (loop_lines lines) /\
  max_nesting (after_lines lines a)
  <= Z.max (max_nesting a) (nesting_level a + Z.of_nat (loop_lines lines)).
Proof.
  induction lines as [|raw lines IH]; intros a.
  - simpl. lia.
  - rewrite after_lines_cons, loop_lines_cons.
    destruct (IH (after_line raw a)) as [IHn IHm].
    destruct (max_after_line raw a) as (_ & _ & _ & _ & Hno).
    pose proof (one_frame_bounds raw a) as (Hn & Hm & Hnl).
    destruct (regex_search loop_re (trim raw)).
    + lia.
    + specialize (Hno eq_refl). specialize (Hnl eq_refl). lia.
Qed.

Lemma no_loop_lines lines :
  loop_lines lines = 0%nat ->
  forall raw, In raw lines -> regex_search loop_re (trim raw) = false.
Proof.
  induction lines as [|x lines IH]; intros H raw Hin; [destruct Hin|].
  rewrite loop_lines_cons in H.
  destruct (regex_search loop_re (trim x)) eqn:Hx; [simpl in H; lia|].
  destruct Hin as [<- | Hin]; [assumption | now apply IH].
Qed.

Lemma some_loop_line lines :
  (0 < loop_lines lines)%nat ->
  exists l1 raw l2, lines = l1 ++ raw :: l2 /\ regex_search loop_re (trim raw) = true.
Proof.
  unfold loop_lines. intros H.
  destruct (List.filter _ lines) as [|raw l] eqn:E; [simpl in H; lia|].
  assert (Hin : In raw (List.filter (fun raw => regex_search loop_re (trim raw)) lines))
    by (rewrite E; now left).
  apply filter_In in Hin. destruct Hin as [Hin Hl].
  apply in_split in Hin. destruct Hin as (l1 & l2 & ->). eauto.
Qed.

Lemma estimate_constant_iff b :
  estimate_overall_complexity b = CONSTANT <-> max_nesting b = 0.
Proof.
  unfold estimate_overall_complexity. split; [| now intros ->].
  destruct (max_nesting b) as [|p|p]; [reflexivity | | discriminate].
  destruct p as [p|p|]; [destruct p | destruct p |]; discriminate.
Qed.

(** X17.  For a freshly constructed analyzer the maximum depth is at most the
    number of input lines on which the loop pattern matches, and the verdict
    is CONSTANT exactly when it matches on no line.  Lines that are comments
    count as well: the loop pattern is tried on every trimmed line. *)
Theorem verdict_constant_iff_no_loop_line (code : list str) :
  max_nesting (snd (analyze (new_analyzer code))) <= Z.of_nat (loop_lines code) /\
  (estimate_overall_complexity (snd (analyze (new_analyzer code))) = CONSTANT <->
   loop_lines code = 0%nat).
Proof.
  rewrite analyze_eq. cbn [snd code_lines new_analyzer].
  set (a0 := track_function_definitions (new_analyzer code)).
  destruct (max_bounded_by_loop_lines code a0) as [_ Hmax].
  change (max_nesting a0) with 0 in Hmax. change (nesting_level a0) with 0 in Hmax.
  split; [lia|]. rewrite estimate_constant_iff. split.
  - intros Hz. destruct (loop_lines code) as [|n] eqn:En; [reflexivity|].
    destruct (some_loop_line code ltac:(lia)) as (l1 & raw & l2 & -> & Hl).
    rewrite after_lines_app, after_lines_cons in Hz.
    pose proof (max_after_lines_le l2 (after_line raw (after_lines l1 a0))) as H2.
    destruct (max_after_line raw (after_lines l1 a0)) as (_ & _ & _ & H1 & _).
    specialize (H1 Hl).
    assert (Hok : depth_ok (after_lines l1 a0)) by (apply depth_ok_after_lines; reflexivity).
    unfold depth_ok in Hok.
    pose proof (loop_frames_nonneg (block_stack (after_lines l1 a0))). lia.
  - intros Hz. rewrite Hz in Hmax.
    pose proof (max_after_lines_le code a0) as H. change (max_nesting a0) with 0 in H. lia.
Qed.

(** ** Classes that a run does not give *)





(** X19.  As long as no line has matched the signature pattern, no line is
    classified LINEARITHMIC: in a run of a freshly constructed analyzer the
    recursion test needs an active function name. *)
Theorem no_recursion_before_declaration (code : list str) (k : nat) (raw : str) :
  code !! k = Some raw ->
  (forall x, In x (firstn (S k) code) -> regex_search_m declaration_re (trim x) = None) ->
  exists r, fst (analyze (new_analyzer code)) !! k = Some r /\
            complexity r <> LINEARITHMIC.
Proof.
  intros Hk Hnone. rewrite analyze_eq. cbn [fst code_lines new_analyzer].
  rewrite (records_from_lookup _ _ _ _ _ Hk).
  eexists. split; [reflexivity|]. cbn [analyze_step fst complexity].
  unfold analyze_line. rewrite current_function_before_classify.
  rewrite (Hnone raw) by (rewrite (take_S_r _ _ _ Hk); apply in_or_app; right; now left).
  rewrite current_function_kept
    by (intros x Hx; apply Hnone; rewrite (take_S_r _ _ _ Hk); apply in_or_app; now left).
  cbn [current_function track_function_definitions set_function_calls new_analyzer].
  destruct (is_comment (trim raw)); [discriminate|].
  destruct (regex_search loop_re (trim raw)).
  - destruct (_ =? 0); [discriminate|]. destruct (_ =? 1); discriminate.
  - cbn [negb andb bool_decide]. rewrite bool_decide_eq_true_2 by reflexivity.
    cbn [negb andb]. destruct (regex_search call_re (trim raw)); discriminate.
Qed.

Lemma no_recursion_before_declaration_witness :
  exists r, fst (analyze (new_analyzer [lit "x = fib(3);"; fib_line])) !! 0%nat = Some r /\
            complexity r <> LINEARITHMIC.
Proof.
  apply (no_recursion_before_declaration _ 0%nat (lit "x = fib(3);")); [reflexivity|].
  intros x [<- | []]. vm_compute. reflexivity.
Defined.

(** ** Reading the input *)

Lemma read_line_line l after :
  ~ In newline l -> read_line (l ++ newline :: after) = (l, after).
Proof.
  induction l as [|c l IH]; intros Hl; cbn [read_line app].
  - now rewrite Ascii.eqb_refl.
  - destruct (Ascii.eqb_spec c newline) as [-> | _]; [destruct Hl; now left|].
    rewrite IH; [reflexivity|]. intros H. apply Hl. now right.
Qed.

Lemma read_line_last l : ~ In newline l -> read_line l = (l, []).
Proof.
  induction l as [|c l IH]; intros Hl; cbn [read_line]; [reflexivity|].
  destruct (Ascii.eqb_spec c newline) as [-> | _]; [destruct Hl; now left|].
  rewrite IH; [reflexivity|]. intros H. apply Hl. now right.
Qed.

Lemma getline_line l after :
  ~ In newline l -> getline (l ++ newline :: after) = Some (l, after).
Proof.
  intros Hl. unfold getline. rewrite <- (read_line_line l after Hl).
  now destruct l.
Qed.

(** The lines that a text consists of: those closed by a newline, and the
    unfinished last one if it is not empty. *)
Lemma read_loop_lines ls :
  forall last fuel code,
  Forall (fun l => ~ In newline l) ls -> ~ In newline last ->
  (length (unlines ls ++ last) <= fuel)%nat ->
  read_loop fuel (unlines ls ++ last) code =
  code ++ before_END (ls ++ match last with [] => [] | _ :: _ => [last] end).
Proof.
  induction ls as [|l ls IH]; intros last fuel code Hls Hlast Hfuel.
  - cbn [unlines flat_map app] in *. destruct last as [|c last].
    + rewrite app_nil_r. destruct fuel; reflexivity.
    + destruct fuel as [|n]; [simpl in Hfuel; lia|].
      cbn [read_loop getline]. rewrite (read_line_last _ Hlast).
      cbn [before_END]. destruct (bool_decide (c :: last = lit "END")).
      * now rewrite app_nil_r.
      * destruct n; reflexivity.
  - inversion Hls as [|? ? Hl Hls']; subst.
    cbn [unlines flat_map] in *. fold (unlines ls) in *.
    rewrite <- !app_assoc in *. cbn [app] in *.
    destruct fuel as [|n]; [rewrite length_app in Hfuel; simpl in Hfuel; lia|].
    cbn [read_loop]. rewrite (getline_line l _ Hl). cbn [before_END].
    destruct (bool_decide (l = lit "END")); [now rewrite app_nil_r|].
    rewrite IH; try assumption.
    + now rewrite <- app_assoc.
    + rewrite length_app in Hfuel. simpl in Hfuel. lia.
Qed.

Lemma text_lines input :
  exists ls last,
    input = unlines ls ++ last /\
    Forall (fun l => ~ In newline l) ls /\ ~ In newline last.
Proof.
  induction input as [|c input IH].
  - exists [], []. repeat split; [constructor | intros []].
  - destruct IH as (ls & last & -> & Hls & Hlast).
    destruct (Ascii.eqb_spec c newline) as [-> | Hc].
    + exists ([] :: ls), last. repeat split; [| assumption].
      constructor; [intros [] | assumption].
    + destruct ls as [|l ls].
      * exists [], (c :: last). repeat split; [constructor|].
        intros [E | H]; [now apply Hc | now apply Hlast].
      * inversion Hls as [|? ? Hl Hls']; subst.
        exists ((c :: l) :: ls), last. repeat split; [| assumption].
        constructor; [| assumption]. intros [E | H]; [now apply Hc | now apply Hl].
Qed.

Lemma before_END_ok ls :
  Forall (fun l => ~ In newline l) ls ->
  Forall (fun l => l <> lit "END" /\ ~ In newline l) (before_END ls).
Proof.
  induction 1 as [|l ls Hl Hls IH]; cbn [before_END]; [constructor|].
  destruct (bool_decide_reflect (l = lit "END")); [constructor|].
  constructor; [split; assumption | assumption].
Qed.

Lemma read_code_lines_spec ls last :
  Forall (fun l => ~ In newline l) ls -> ~ In newline last ->
  read_code (unlines ls ++ last) =
  before_END (ls ++ match last with [] => [] | _ :: _ => [last] end).
Proof.
  intros Hls Hlast. unfold read_code.
  now rewrite read_loop_lines by (auto; lia).
Qed.

(** X20.  The input loop of [main] returns the lines of the input that stand
    in front of the first line END, each without its newline; an unfinished
    last line counts as a line, an empty one does not.  Whatever the input,
    no line it returns is END or contains a newline.  The sentinel must be the
    whole line: a line such as END followed by a carriage return or a blank
    is read as code. *)
Theorem read_code_lines (input : str) :
  Forall (fun l => l <> lit "END" /\ ~ In newline l) (read_code input) /\
  (forall (ls : list str) (last : str),
     Forall (fun l => ~ In newline l) ls -> ~ In newline last ->
     input = unlines ls ++ last ->
     read_code input =
     before_END (ls ++ match last with [] => [] | _ :: _ => [last] end)).
Proof.
  assert (Hspec : forall ls last,
            Forall (fun l => ~ In newline l) ls -> ~ In newline last ->
            input = unlines ls ++ last ->
            read_code input =
            before_END (ls ++ match last with [] => [] | _ :: _ => [last] end)).
  { intros ls last Hls Hlast ->. now apply read_code_lines_spec. }
  split; [| exact Hspec].
  destruct (text_lines input) as (ls & last & E & Hls & Hlast).
  rewrite (Hspec ls last Hls Hlast E). apply before_END_ok.
  apply Forall_app. split; [assumption|].
  destruct last; constructor; [assumption | constructor].
Qed.

Lemma read_code_lines_witness :
  read_code (unlines [lit "int x;"; lit "END "; lit "END"; lit "y"] ++ lit "z")
  = [lit "int x;"; lit "END "].
Proof.
  destruct (read_code_lines (unlines [lit "int x;"; lit "END "; lit "END"; lit "y"] ++ lit "z"))
    as [_ H].
  rewrite (H [lit "int x;"; lit "END "; lit "END"; lit "y"] (lit "z")); [reflexivity | | | reflexivity].
  - repeat constructor; vm_compute; intuition discriminate.
  - vm_compute; intuition discriminate.
Defined.

(** X21.  What [main] reports depends on the lines in front of the first line
    END only: whatever follows that line, the records and the verdict are
    those of the input that ends there. *)
Theorem main_ignores_text_after_END (ls rest : list str) (last : str) :
  Forall (fun l => ~ In newline l) ls ->
  Forall (fun l => l <> lit "END") ls ->
  Forall (fun l => ~ In newline l) rest -> ~ In newline last ->
  main (unlines (ls ++ lit "END" :: rest) ++ last) = run ls /\
  main (unlines ls) = run ls.
Proof.
  intros Hnl Hne Hrest Hlast.
  assert (Hb : forall tl, before_END (ls ++ lit "END" :: tl) = ls).
  { intros tl. induction Hne as [|l ls Hl _ IH]; cbn [app before_END].
    - reflexivity.
    - rewrite bool_decide_eq_false_2 by assumption.
      inversion Hnl; subst. now rewrite IH. }
  assert (Hb' : before_END ls = ls).
  { clear Hb. induction Hne as [|l ls Hl _ IH]; cbn [before_END]; [reflexivity|].
    rewrite bool_decide_eq_false_2 by assumption.
    inversion Hnl; subst. now rewrite IH. }
  unfold main. split.
  - rewrite read_code_lines_spec; [| | assumption].
    + rewrite <- app_assoc. cbn [app]. now rewrite Hb.
    + apply Forall_app. split; [assumption|].
      constructor; [vm_compute; intuition discriminate | assumption].
  - rewrite <- (app_nil_r (unlines ls)).
    rewrite read_code_lines_spec; [| assumption | intros []].
    now rewrite app_nil_r, Hb'.
Qed.

Lemma main_ignores_text_after_END_witness :
  main (unlines ([for_line; lit "}"] ++ lit "END" :: [for_line]) ++ lit "x") =
  run [for_line; lit "}"].
Proof.
  apply (main_ignores_text_after_END [for_line; lit "}"] [for_line] (lit "x"));
    repeat constructor; vm_compute; intuition discriminate.
Defined.

(** ** Labels *)

(** X22.  The label printed for a class and the reason stored in a record
    each tell the class: different classes never share a label, nor a reason,
    whatever the lines are. *)
Theorem labels_tell_the_class (c1 c2 : Complexity) (line1 line2 : str) :
  (complexity_to_string c1 = complexity_to_string c2 -> c1 = c2) /\
  (get_complexity_reason line1 c1 = get_complexity_reason line2 c2 -> c1 = c2).
Proof.
  split.
  - destruct c1, c2; try reflexivity; intros H; vm_compute in H; discriminate H.
  - unfold get_complexity_reason.
    destruct (regex_search loop_re line1), (regex_search loop_re line2);
      destruct c1, c2; try reflexivity; intros H; vm_compute in H; discriminate H.
Qed.

Lemma labels_tell_the_class_witness :
  complexity_to_string QUADRATIC <> complexity_to_string CUBIC.
Proof.
  intros H.
  destruct (labels_tell_the_class QUADRATIC CUBIC [] []) as [Hlabel _].
  apply Hlabel in H. discriminate H.
Defined.
